(** * drizzle-op-sqlite-sync: session adapter, commit hook and write harness

    A shallow embedding of the TypeScript sources of the repository:

    - [src/sqlite/OPSQLiteBaseSession.ts], [src/sqlite/OPSQLiteSession.ts]
      and [src/sqlite/OPSQLiteDatabase.ts] (module [Adapter]);
    - the update and commit hooks of [System.initPowersyncOpSqlite]
      (module [Hooks]);
    - [runLockingTest], [runHookedConnectionSimultaneousWrites] and
      [runDeleteAndInsertSameId] of [demo/src/SimultaneousWritesScreen.tsx]
      (module [Harness]).

    Effectful code is written in a state-and-exception monad.  The native
    driver, the ORM and the sync engine are not part of the repository:
    they enter as section variables.  Of the ORM, the [sql] template tag
    and the query that its SQLite dialect renders from a template are
    written out, since the adapter's statements are built with them.
    Calls to [console.log] and [console.info] have no influence on any
    result and are left out. *)

From Stdlib Require Import List String Ascii Bool Arith NArith Lia.
From Stdlib Require Import Permutation DecimalString.
From Stdlib Require HexadecimalString.
Import ListNotations.

Local Open Scope string_scope.
Local Open Scope list_scope.

(** ** Completions and the state-and-exception monad *)

Module Js.

(** What a [throw] carries: an [Error] instance (of any subclass), with its
    [message], or some other value, given by its [String(...)] conversion. *)
Inductive Thrown : Type :=
| ErrorObject (name message : string)
| OtherValue (str : string).

(** [new Error(message)] *)
Definition Error (message : string) : Thrown := ErrorObject "Error" message.

(** [err instanceof Error ? err.message : String(err)] *)
Definition message_or_string (err : Thrown) : string :=
  match err with
  | ErrorObject _ message => message
  | OtherValue str => str
  end.

Inductive Completion (T : Type) : Type :=
| Normal (v : T)
| Throw (e : Thrown).
Arguments Normal {T} v.
Arguments Throw {T} e.

(** A computation over a world of type [W]. *)
Definition M (W T : Type) : Type := W -> Completion T * W.

Definition ret {W T} (v : T) : M W T := fun w => (Normal v, w).

Definition throw {W T} (e : Thrown) : M W T := fun w => (Throw e, w).

Definition bind {W A B} (c : M W A) (k : A -> M W B) : M W B :=
  fun w =>
    match c w with
    | (Normal a, w1) => k a w1
    | (Throw e, w1) => (Throw e, w1)
    end.

(** [try { body } catch (err) { handler(err) }] *)
Definition try_catch {W T} (body : M W T) (handler : Thrown -> M W T) : M W T :=
  fun w =>
    match body w with
    | (Normal v, w1) => (Normal v, w1)
    | (Throw e, w1) => handler e w1
    end.

(** [try { body } finally { cleanup }], for a [cleanup] that completes
    normally or whose own throw replaces the completion of [body]. *)
Definition try_finally {W T} (body : M W T) (cleanup : M W unit) : M W T :=
  fun w =>
    match body w with
    | (c, w1) =>
        match cleanup w1 with
        | (Normal _, w2) => (c, w2)
        | (Throw e, w2) => (Throw e, w2)
        end
    end.

End Js.

Import Js.

Declare Scope js_scope.
Delimit Scope js_scope with js.
Notation "x <- c ;; k" := (bind c (fun x => k))
  (at level 61, c at next level, right associativity) : js_scope.
Notation "c ;;; k" := (bind c (fun _ => k))
  (at level 61, right associativity) : js_scope.
Local Open Scope js_scope.

(** ** The session adapter *)

Module Adapter.

(** [SQLiteTransactionConfig['behavior']] of the ORM. *)
Inductive Behavior : Type := deferred | immediate | exclusive.

Definition behavior_text (b : Behavior) : string :=
  match b with
  | deferred => "deferred"
  | immediate => "immediate"
  | exclusive => "exclusive"
  end.

Inductive AccessMode : Type := read_only | read_write.

(** [OPSQLiteTransactionConfig = SQLiteTransactionConfig & { accessMode? }] *)
Record OPSQLiteTransactionConfig : Type := {
  behavior : option Behavior;
  accessMode : option AccessMode
}.

(** The default value [{}] of the [config] parameters. *)
Definition empty_config : OPSQLiteTransactionConfig :=
  {| behavior := None; accessMode := None |}.

(** A use of the ORM's [sql] template tag: the literal parts of the
    template and the interpolated values between them. *)
Inductive SQL : Type :=
| sql (strings : list string) (values : list string).

(** The [Query] that [dialect.sqlToQuery] of the ORM renders from a
    template and [SQLiteSession.run] hands to [prepareQuery]: the text of
    the statement and the parameters bound to its placeholders. *)
Record Query : Type := {
  query_sql : string;
  query_params : list string
}.

(** The text rendered from a template: its literal parts, with the
    placeholder [?] of the SQLite dialect where a value is interpolated.
    The tag takes an interpolated string for a parameter of the statement,
    never for SQL text. *)
Fixpoint placeholders (strings values : list string) : string :=
  match strings, values with
  | [], _ => ""
  | s :: ss, [] => s ++ placeholders ss []
  | s :: ss, _ :: vs => s ++ "?" ++ placeholders ss vs
  end.

(** [dialect.sqlToQuery(q)] *)
Definition sqlToQuery (q : SQL) : Query :=
  match q with
  | sql strings values =>
      {| query_sql := placeholders strings values; query_params := values |}
  end.

(** The statement text that reaches [prepareQuery] and the connection for
    a template: [query.sql]. *)
Definition template_text (q : SQL) : string := query_sql (sqlToQuery q).

Section Session.

(** The native connection handle ([DB] of op-sqlite), the state of the
    world the connections live in, and the ORM's dialect, schema
    descriptor and logger objects. *)
Variables (DB Store Dialect Schema Logger : Type).

(** [new NoopLogger()] and [new DefaultLogger()] of the ORM. *)
Variables (NoopLogger DefaultLogger : Logger).

(** [SQLiteSession.run] of the ORM renders the statement with the
    dialect ([sqlToQuery]), hands the query to [prepareQuery] and runs the
    prepared query; [OPSQLitePreparedQuery] receives the connection, the
    rendered query and the logger.  The composition is a parameter: it may
    change the store and may throw. *)
Variable prepared_run : DB -> Dialect -> Logger -> SQL -> Store -> Completion unit * Store.

(** [OpSQLiteSessionOptions] *)
Record OpSQLiteSessionOptions : Type := {
  opt_logger : option Logger
}.

(** The fields of an [OPSQLiteBaseSession]; an [OPSQLiteSession] adds
    [client] and overrides [transaction]. *)
Record OPSQLiteBaseSession : Type := {
  db : DB;
  dialect : Dialect;
  schema : option Schema;
  options : OpSQLiteSessionOptions;
  logger : Logger
}.

(** The constructor of [OPSQLiteBaseSession]:
    [this.logger = options.logger ?? new NoopLogger()]. *)
Definition new_OPSQLiteBaseSession (db0 : DB) (dialect0 : Dialect)
    (schema0 : option Schema) (options0 : OpSQLiteSessionOptions) : OPSQLiteBaseSession :=
  {| db := db0;
     dialect := dialect0;
     schema := schema0;
     options := options0;
     logger := match opt_logger options0 with
               | Some l => l
               | None => NoopLogger
               end |}.

Record OPSQLiteSession : Type := {
  base : OPSQLiteBaseSession;
  client : DB
}.

(** The constructor of [OPSQLiteSession]: [super(...)], then
    [this.client = db]. *)
Definition new_OPSQLiteSession (db0 : DB) (dialect0 : Dialect)
    (schema0 : option Schema) (options0 : OpSQLiteSessionOptions) : OPSQLiteSession :=
  {| base := new_OPSQLiteBaseSession db0 dialect0 schema0 options0;
     client := db0 |}.

(** A session object with its run-time class. *)
Inductive SessionObject : Type :=
| BaseSession (s : OPSQLiteBaseSession)
| FullSession (s : OPSQLiteSession).

Definition session_fields (s : SessionObject) : OPSQLiteBaseSession :=
  match s with
  | BaseSession b => b
  | FullSession f => base f
  end.

(** [new OPSQLiteTransaction('sync', dialect, session, schema)] *)
Record OPSQLiteTransaction : Type := {
  tx_dialect : Dialect;
  tx_session : SessionObject;
  tx_schema : option Schema
}.

(** What an observer of the adapter sees: statements handed to [run]
    on a connection, and entries into a user callback. *)
Inductive Event : Type :=
| Executed (on : DB) (q : SQL)
| Entered (tx : OPSQLiteTransaction).

Record World : Type := {
  store : Store;
  trace : list Event
}.

Definition record (e : Event) (w : World) : World :=
  {| store := store w; trace := trace w ++ [e] |}.

(** [this.run(q)] *)
Definition run (this : OPSQLiteBaseSession) (q : SQL) : M World unit :=
  fun w =>
    let w1 := record (Executed (db this) q) w in
    match prepared_run (db this) (dialect this) (logger this) q (store w1) with
    | (c, st) => (c, {| store := st; trace := trace w1 |})
    end.

(** The call [transaction(tx)] of a user callback. *)
Definition invoke {T} (callback : OPSQLiteTransaction -> M World T)
    (tx : OPSQLiteTransaction) : M World T :=
  fun w => callback tx (record (Entered tx) w).

Definition nested_message : string := "Nested transactions are not supported".

(** [OPSQLiteBaseSession.transaction] *)
Definition OPSQLiteBaseSession_transaction {T}
    (this : OPSQLiteBaseSession)
    (_transaction : OPSQLiteTransaction -> M World T)
    (_config : OPSQLiteTransactionConfig) : M World T :=
  throw (Error nested_message).

(** The transaction object built by [OPSQLiteSession.transaction]. *)
Definition new_tx (this : OPSQLiteSession) : OPSQLiteTransaction :=
  {| tx_dialect := dialect (base this);
     tx_session :=
       BaseSession (new_OPSQLiteBaseSession (client this) (dialect (base this))
                      (schema (base this)) (options (base this)));
     tx_schema := schema (base this) |}.

(** [config?.behavior ? ' ' + config.behavior : ''] *)
Definition behavior_suffix (config : OPSQLiteTransactionConfig) : string :=
  match behavior config with
  | Some b => (" " ++ behavior_text b)%string
  | None => ""
  end.

(** [sql`begin${config?.behavior ? ' ' + config.behavior : ''}`]: the
    suffix is an interpolated value of the template. *)
Definition begin_statement (config : OPSQLiteTransactionConfig) : SQL :=
  sql ["begin"; ""] [behavior_suffix config].

Definition commit_statement : SQL := sql ["commit"] [].
Definition rollback_statement : SQL := sql ["rollback"] [].

(** [OPSQLiteSession.transaction] *)
Definition OPSQLiteSession_transaction {T}
    (this : OPSQLiteSession)
    (transaction : OPSQLiteTransaction -> M World T)
    (config : OPSQLiteTransactionConfig) : M World T :=
  let tx := new_tx this in
  run (base this) (begin_statement config) ;;;
  result <- try_catch
              (result <- invoke transaction tx ;;
               run (base this) commit_statement ;;;
               ret result)
              (fun err =>
                 run (base this) rollback_statement ;;;
                 throw err) ;;
  ret result.

(** Method dispatch on the run-time class of the session. *)
Definition session_transaction {T} (s : SessionObject)
    (f : OPSQLiteTransaction -> M World T)
    (config : OPSQLiteTransactionConfig) : M World T :=
  match s with
  | BaseSession b => OPSQLiteBaseSession_transaction b f config
  | FullSession full => OPSQLiteSession_transaction full f config
  end.

(** [tx.transaction(g, config)]: [OPSQLiteTransaction] declares no
    method of its own, and the database class it inherits from forwards
    [transaction] to the session it was built with. *)
Definition tx_transaction {T} (tx : OPSQLiteTransaction)
    (g : OPSQLiteTransaction -> M World T)
    (config : OPSQLiteTransactionConfig) : M World T :=
  session_transaction (tx_session tx) g config.

(** *** The database factory *)

(** The user's schema object, the casing option and the functions a cache
    object carries; [new SQLiteSyncDialect({ casing })]; and the descriptor
    [{ fullSchema, schema, tableNamesMap }] that [drizzle] builds from
    [extractTablesRelationalConfig(config.schema, ...)]. *)
Variables (FullSchema Casing CacheFn : Type).
Variable SQLiteSyncDialect : option Casing -> Dialect.
Variable relational_config : FullSchema -> Schema.

(** [config.logger]: [boolean | Logger], when present. *)
Inductive LoggerSetting : Type :=
| LoggerFlag (b : bool)
| LoggerObject (l : Logger).

Record Cache : Type := {
  onMutate : option CacheFn;
  invalidate : option CacheFn
}.

(** [DrizzleConfig<TSchema>] *)
Record DrizzleConfig : Type := {
  cfg_logger : option LoggerSetting;
  cfg_schema : option FullSchema;
  cfg_casing : option Casing;
  cfg_cache : option Cache
}.

(** [OPSQLiteDatabase & { $client }], with the [$cache] property that
    [drizzle] attaches. *)
Record OPSQLiteDatabase : Type := {
  database_dialect : Dialect;
  database_session : OPSQLiteSession;
  database_schema : option Schema;
  dollar_client : DB;
  dollar_cache : option Cache
}.

(** The local [logger] of [drizzle]: assigned a [DefaultLogger] for [true],
    left [undefined] for [false], and otherwise assigned [config.logger]
    itself (which is [undefined] when the property is absent). *)
Definition select_logger (setting : option LoggerSetting) : option Logger :=
  match setting with
  | Some (LoggerFlag true) => Some DefaultLogger
  | Some (LoggerFlag false) => None
  | Some (LoggerObject l) => Some l
  | None => None
  end.

(** [drizzle(client, config)] *)
Definition drizzle (client0 : DB) (config : DrizzleConfig) : OPSQLiteDatabase :=
  let dialect0 := SQLiteSyncDialect (cfg_casing config) in
  let logger0 := select_logger (cfg_logger config) in
  let schema0 :=
    match cfg_schema config with
    | Some full => Some (relational_config full)
    | None => None
    end in
  let session := new_OPSQLiteSession client0 dialect0 schema0 {| opt_logger := logger0 |} in
  {| database_dialect := dialect0;
     database_session := session;
     database_schema := schema0;
     dollar_client := client0;
     dollar_cache :=
       match cfg_cache config with
       | Some c => Some {| onMutate := onMutate c; invalidate := onMutate c |}
       | None => None
       end |}.

(** The logger with which the session of a database reports its queries. *)
Definition session_logger (d : OPSQLiteDatabase) : Logger :=
  logger (base (database_session d)).

End Session.

Arguments opt_logger {Logger} _.
Arguments db {DB Dialect Schema Logger} _.
Arguments dialect {DB Dialect Schema Logger} _.
Arguments schema {DB Dialect Schema Logger} _.
Arguments options {DB Dialect Schema Logger} _.
Arguments logger {DB Dialect Schema Logger} _.
Arguments base {DB Dialect Schema Logger} _.
Arguments client {DB Dialect Schema Logger} _.
Arguments BaseSession {DB Dialect Schema Logger} s.
Arguments FullSession {DB Dialect Schema Logger} s.
Arguments tx_session {DB Dialect Schema Logger} _.
Arguments Executed {DB Dialect Schema Logger} on q.
Arguments Entered {DB Dialect Schema Logger} tx.
Arguments store {DB Store Dialect Schema Logger} _.
Arguments trace {DB Store Dialect Schema Logger} _.
Arguments record {DB Store Dialect Schema Logger} e w.
Arguments run {DB Store Dialect Schema Logger} prepared_run this q _.
Arguments invoke {DB Store Dialect Schema Logger T} callback tx _.
Arguments new_tx {DB Dialect Schema Logger} NoopLogger this.
Arguments OPSQLiteBaseSession_transaction {DB Store Dialect Schema Logger T} this _transaction _config _.
Arguments OPSQLiteSession_transaction {DB Store Dialect Schema Logger} NoopLogger prepared_run {T} this transaction config _.
Arguments session_transaction {DB Store Dialect Schema Logger} NoopLogger prepared_run {T} s f config _.
Arguments tx_transaction {DB Store Dialect Schema Logger} NoopLogger prepared_run {T} tx g config _.
Arguments new_OPSQLiteBaseSession {DB Dialect Schema Logger} NoopLogger db0 dialect0 schema0 options0.
Arguments new_OPSQLiteSession {DB Dialect Schema Logger} NoopLogger db0 dialect0 schema0 options0.
Arguments LoggerFlag {Logger} b.
Arguments LoggerObject {Logger} l.
Arguments cfg_logger {Logger FullSchema Casing CacheFn} _.
Arguments select_logger {Logger} DefaultLogger setting.
Arguments drizzle {DB Dialect Schema Logger} NoopLogger DefaultLogger {FullSchema Casing CacheFn} SQLiteSyncDialect relational_config client0 config.
Arguments session_logger {DB Dialect Schema Logger CacheFn} d.

End Adapter.

(** ** Ordinary JavaScript objects used as string-keyed maps *)

Module JsObject.

(** The property names an object created by [{}] inherits from
    [Object.prototype]; each reads as a function or an object, hence as a
    truthy value that is not an array. *)
Definition Object_prototype_properties : list string :=
  [ "constructor"; "__proto__"; "hasOwnProperty"; "isPrototypeOf";
    "propertyIsEnumerable"; "toLocaleString"; "toString"; "valueOf";
    "__defineGetter__"; "__defineSetter__"; "__lookupGetter__";
    "__lookupSetter__" ].

Definition inherited (key : string) : bool :=
  existsb (String.eqb key) Object_prototype_properties.

(** The own properties of an object, in the order of their creation. *)
Definition Obj (V : Type) : Type := list (string * V).

(** [{}] *)
Definition empty {V} : Obj V := [].

Fixpoint own {V} (o : Obj V) (key : string) : option V :=
  match o with
  | [] => None
  | (k, v) :: rest => if String.eqb k key then Some v else own rest key
  end.

(** What [o[key]] reads. *)
Inductive Read (V : Type) : Type :=
| OwnProperty (v : V)
| InheritedProperty
| Undefined.
Arguments OwnProperty {V} v.
Arguments InheritedProperty {V}.
Arguments Undefined {V}.

Definition get {V} (o : Obj V) (key : string) : Read V :=
  match own o key with
  | Some v => OwnProperty v
  | None => if inherited key then InheritedProperty else Undefined
  end.

(** Replacing the value of an own property keeps its place. *)
Fixpoint replace {V} (o : Obj V) (key : string) (v : V) : Obj V :=
  match o with
  | [] => []
  | (k, old) :: rest =>
      if String.eqb k key then (k, v) :: rest else (k, old) :: replace rest key v
  end.

(** [o[key] = v] for a key that is neither an own nor an inherited
    property: a new own property, created last. *)
Definition define {V} (o : Obj V) (key : string) (v : V) : Obj V :=
  o ++ [(key, v)].

(** An array index is the canonical decimal form of an integer below
    [2^32 - 1]. *)
Definition digit (c : ascii) : option N :=
  let n := N_of_ascii c in
  if (48 <=? n)%N && (n <=? 57)%N then Some (n - 48)%N else None.

Fixpoint digits (s : string) (acc : N) : option N :=
  match s with
  | EmptyString => Some acc
  | String c rest =>
      match digit c with
      | Some d => digits rest (acc * 10 + d)%N
      | None => None
      end
  end.

Definition array_index (key : string) : option N :=
  match key with
  | EmptyString => None
  | String "0" EmptyString => Some 0%N
  | String "0" _ => None
  | _ =>
      match digits key 0 with
      | Some n => if (n <? 4294967295)%N then Some n else None
      | None => None
      end
  end.

Fixpoint insert_sorted (entry : N * string) (l : list (N * string)) : list (N * string) :=
  match l with
  | [] => [entry]
  | e :: rest =>
      if (fst entry <=? fst e)%N then entry :: e :: rest
      else e :: insert_sorted entry rest
  end.

Definition sort_indices (l : list (N * string)) : list (N * string) :=
  fold_right insert_sorted [] l.

Fixpoint index_keys (keys : list string) : list (N * string) :=
  match keys with
  | [] => []
  | k :: rest =>
      match array_index k with
      | Some n => (n, k) :: index_keys rest
      | None => index_keys rest
      end
  end.

Definition is_index (key : string) : bool :=
  match array_index key with Some _ => true | None => false end.

(** [Object.keys(o)]: array indices in ascending order, then the other
    keys in the order of their creation. *)
Definition keys {V} (o : Obj V) : list string :=
  let own_keys := map fst o in
  map snd (sort_indices (index_keys own_keys))
    ++ filter (fun k => negb (is_index k)) own_keys.

End JsObject.

(** ** The update and commit hooks of [System] *)

Module Hooks.

Import JsObject.

(** [RowUpdateType] of the sync engine. *)
Inductive RowUpdateType : Type := SQLITE_INSERT | SQLITE_DELETE | SQLITE_UPDATE.

(** [UpdateNotification]; [opType] is [undefined] when the hook's [switch]
    matched no case. *)
Record UpdateNotification : Type := {
  table : string;
  opType : option RowUpdateType;
  rowId : N
}.

(** The argument the native driver passes to an update hook. *)
Record UpdateHookData : Type := {
  update_operation : string;
  update_table : string;
  update_rowId : N
}.

(** [BatchedUpdateNotification] *)
Record BatchedUpdateNotification : Type := {
  groupedUpdates : Obj (list UpdateNotification);
  rawUpdates : list UpdateNotification;
  tables : list string
}.

(** A registered [DBAdapterListener]: it is told apart by [listener_id],
    and may or may not define [tablesUpdated]. *)
Record DBAdapterListener : Type := {
  listener_id : nat;
  has_tablesUpdated : bool
}.

(** The part of [System] the hooks touch: the buffer, the listeners
    registered with the adapter, and the calls of [tablesUpdated] made so
    far (listener and argument). *)
Record System : Type := {
  updateBuffer : list UpdateNotification;
  listeners : list DBAdapterListener;
  notified : list (nat * BatchedUpdateNotification)
}.

(** The callback installed by [db.updateHook]. *)
Definition updateHook (update : UpdateHookData) : M System unit :=
  fun this =>
    let opType0 :=
      if String.eqb (update_operation update) "INSERT" then Some SQLITE_INSERT
      else if String.eqb (update_operation update) "DELETE" then Some SQLITE_DELETE
      else if String.eqb (update_operation update) "UPDATE" then Some SQLITE_UPDATE
      else None in
    (Normal tt,
     {| updateBuffer :=
          updateBuffer this
            ++ [{| table := update_table update;
                   opType := opType0;
                   rowId := update_rowId update |}];
        listeners := listeners this;
        notified := notified this |}).

(** Calling [push] on a value that has no such method. *)
Definition push_not_a_function : Thrown :=
  ErrorObject "TypeError" "updateGroup.push is not a function".

(** The reducer of the commit hook:
    [const updateGroup = grouping[table] || (grouping[table] = []);
     updateGroup.push(update); return grouping]. *)
Definition group_update (grouping : Obj (list UpdateNotification))
    (update : UpdateNotification) : Completion (Obj (list UpdateNotification)) :=
  match get grouping (table update) with
  | OwnProperty updateGroup =>
      Normal (replace grouping (table update) (updateGroup ++ [update]))
  | Undefined =>
      Normal (define grouping (table update) ([] ++ [update]))
  | InheritedProperty => Throw push_not_a_function
  end.

(** [buffer.reduce(group_update, grouping)] *)
Fixpoint reduce (buffer : list UpdateNotification)
    (grouping : Obj (list UpdateNotification))
    : Completion (Obj (list UpdateNotification)) :=
  match buffer with
  | [] => Normal grouping
  | update :: rest =>
      match group_update grouping update with
      | Normal grouping1 => reduce rest grouping1
      | Throw e => Throw e
      end
  end.

(** [adapter.iterateListeners(l => l.tablesUpdated?.(batchedUpdate))] *)
Definition iterateListeners (batchedUpdate : BatchedUpdateNotification) : M System unit :=
  fun this =>
    (Normal tt,
     {| updateBuffer := updateBuffer this;
        listeners := listeners this;
        notified :=
          notified this
            ++ map (fun l => (listener_id l, batchedUpdate))
                 (filter has_tablesUpdated (listeners this)) |}).

Definition lift {W T} (c : Completion T) : M W T := fun w => (c, w).

Definition set_updateBuffer (buffer : list UpdateNotification) : M System unit :=
  fun this =>
    (Normal tt,
     {| updateBuffer := buffer;
        listeners := listeners this;
        notified := notified this |}).

(** The callback installed by [db.commitHook]. *)
Definition commitHook : M System unit :=
  fun this =>
    if Nat.eqb (List.length (updateBuffer this)) 0 then (Normal tt, this)
    else
      (groupedUpdates0 <- lift (reduce (updateBuffer this) empty) ;;
       let batchedUpdate :=
         {| groupedUpdates := groupedUpdates0;
            rawUpdates := updateBuffer this;
            tables := keys groupedUpdates0 |} in
       set_updateBuffer [] ;;;
       iterateListeners batchedUpdate) this.

(** The updates of a buffer that concern one table, in buffer order. *)
Definition updates_of (t : string) (buffer : list UpdateNotification)
    : list UpdateNotification :=
  filter (fun u => String.eqb (table u) t) buffer.

(** What grouping a buffer adds to the group that a table already has. *)
Definition extended (before : option (list UpdateNotification))
    (added : list UpdateNotification) : option (list UpdateNotification) :=
  match before, added with
  | Some group, _ => Some (group ++ added)
  | None, [] => None
  | None, _ :: _ => Some added
  end.

(** No update of the buffer concerns a table whose name is an inherited
    property of objects. *)
Definition named_safely (buffer : list UpdateNotification) : Prop :=
  forall u, In u buffer -> inherited (table u) = false.

End Hooks.

(** ** The simultaneous-writes harness *)

Module Harness.

(** [String.prototype.includes] *)
Fixpoint includes (s search : string) : bool :=
  if String.prefix search s then true
  else
    match s with
    | EmptyString => false
    | String _ rest => includes rest search
    end.

(** A number inside a template literal. *)
Definition decimal (n : nat) : string :=
  DecimalString.NilZero.string_of_uint (Nat.to_uint n).

(** A boolean inside a template literal. *)
Definition boolean_text (b : bool) : string :=
  if b then "true" else "false".

(** A row of the [lists] table: [id] is the primary key, the other two
    columns are nullable. *)
Record Row : Type := {
  id : string;
  name : option string;
  owner_id : option string
}.

(** [TestResult] *)
Record TestResult : Type := {
  test_name : string;
  passed : bool;
  error : option string
}.

Definition POWER_SYNC_WRITE_COUNT : nat := 100.

Definition insert_list : string :=
  "INSERT INTO lists (id, name, owner_id) VALUES (?, ?, ?)".

(** A write that has been started and not yet awaited. *)
Inductive Write : Type :=
| PowerSyncExecute (statement : string) (parameters : list string)
| DrizzleInsert (values : Row).

(** [for (const x of l) { await body(x) }] *)
Fixpoint for_each {W A} (l : list A) (body : A -> M W unit) : M W unit :=
  match l with
  | [] => ret tt
  | x :: rest => body x ;;; for_each rest body
  end.

(** [l.map((x, index) => f(x, index))] for an [f] with effects. *)
Fixpoint map_indexed {W A B} (f : A -> nat -> M W B) (l : list A) (index : nat)
    : M W (list B) :=
  match l with
  | [] => ret []
  | x :: rest =>
      y <- f x index ;;
      ys <- map_indexed f rest (S index) ;;
      ret (y :: ys)
  end.

Section Scenarios.

(** The database file with its connections, and the state of
    [Math.random]. *)
Variables (Database Random : Type).

Record World : Type := {
  database : Database;
  random : Random
}.

(** The helper [uuid()]: a fresh string drawn from [Math.random]. *)
Variable draw_uuid : Random -> string * Random.

(** [String.prototype.toLowerCase] of the engine. *)
Variable toLowerCase : string -> string.

(** The clients: [powersync.execute], [powersync.getAll], [executeSync] on
    the separate raw connection, the awaited insert of the adapter built
    on the sync engine's connection, and [Promise.all] over writes in
    flight.  Each may change the database and may throw. *)
Variable powersync_execute : string -> list string -> Database -> Completion unit * Database.
Variable powersync_getAll : string -> list string -> Database -> Completion (list Row) * Database.
Variable separate_executeSync : string -> Database -> Completion unit * Database.
Variable drizzle_insert : Row -> Database -> Completion unit * Database.
Variable promise_all : list Write -> Database -> Completion unit * Database.

Definition on_database {T} (op : Database -> Completion T * Database) : M World T :=
  fun w =>
    match op (database w) with
    | (c, d) => (c, {| database := d; random := random w |})
    end.

Definition uuid : M World string :=
  fun w =>
    match draw_uuid (random w) with
    | (s, r) => (Normal s, {| database := database w; random := r |})
    end.

(** [Array.from({ length: n }, () => uuid())] *)
Fixpoint uuids (n : nat) : M World (list string) :=
  match n with
  | O => ret []
  | S m =>
      first <- uuid ;;
      others <- uuids m ;;
      ret (first :: others)
  end.

(** [!!lockError && lockError.toLowerCase().includes('lock')] *)
Definition lock_detected (lockError : option string) : bool :=
  match lockError with
  | Some message =>
      negb (String.eqb message "") && includes (toLowerCase message) "lock"
  | None => false
  end.

(** The [try]/[catch]/[finally] statement of [runLockingTest], with the
    draw of [lockTestId] before it; it yields [lockError]. *)
Definition locking_attempt : M World (option string) :=
  lockTestId <- uuid ;;
  try_finally
    (try_catch
       (on_database (separate_executeSync "BEGIN IMMEDIATE TRANSACTION") ;;;
        owner <- uuid ;;
        on_database (powersync_execute insert_list [lockTestId; "Locked insert"; owner]) ;;;
        ret None)
       (fun err => ret (Some (message_or_string err))))
    (try_catch
       (on_database (separate_executeSync "ROLLBACK"))
       (fun _ => ret tt)).

(** The result that [runLockingTest] builds from [lockError]. *)
Definition locking_result (lockError : option string) : TestResult :=
  let lockDetected := lock_detected lockError in
  {| test_name := "Separate write connection blocks PowerSync write";
     passed := lockDetected;
     error :=
       if lockDetected then None
       else Some ("Expected lock error when separate connection holds transaction. Got: "
                    ++ match lockError with
                       | Some message => message
                       | None => "no error"
                       end)%string |}.

(** [runLockingTest] *)
Definition runLockingTest : M World TestResult :=
  lockError <- locking_attempt ;;
  ret (locking_result lockError).

Definition hooked_name : string := "Drizzle List (hooked)".

(** [queryResults.some(r => r.id === drizzleId && r.name === 'Drizzle List (hooked)')] *)
Definition has_drizzle_item (queryResults : list Row) (drizzleId : string) : bool :=
  existsb
    (fun r =>
       String.eqb (id r) drizzleId
       && match name r with
          | Some n => String.eqb n hooked_name
          | None => false
          end)
    queryResults.

(** [queryResults.filter(r => powersyncIds.includes(r.id)).length] *)
Definition powersync_items_count (queryResults : list Row) (powersyncIds : list string) : nat :=
  List.length (filter (fun r => existsb (String.eqb (id r)) powersyncIds) queryResults).

Definition hooked_passed (queryResults : list Row) (drizzleId : string)
    (powersyncIds : list string) : bool :=
  Nat.eqb (List.length queryResults) (List.length powersyncIds + 1)
  && has_drizzle_item queryResults drizzleId
  && Nat.eqb (powersync_items_count queryResults powersyncIds) (List.length powersyncIds).

(** The writes started by [powersyncIds.map((id, index) => powersync.execute(...))]. *)
Definition start_powersync_writes (powersyncIds : list string) : M World (list Write) :=
  map_indexed
    (fun id0 index =>
       owner <- uuid ;;
       ret (PowerSyncExecute insert_list
              [id0; ("PowerSync List " ++ decimal (index + 1))%string; owner]))
    powersyncIds 0.

(** [runHookedConnectionSimultaneousWrites] *)
Definition runHookedConnectionSimultaneousWrites : M World TestResult :=
  on_database (powersync_execute "DELETE FROM lists" []) ;;;
  drizzleId <- uuid ;;
  powersyncIds <- uuids POWER_SYNC_WRITE_COUNT ;;
  powersyncWrites <- start_powersync_writes powersyncIds ;;
  owner <- uuid ;;
  let drizzleWrite :=
    DrizzleInsert {| id := drizzleId; name := Some hooked_name; owner_id := Some owner |} in
  on_database (promise_all (powersyncWrites ++ [drizzleWrite])) ;;;
  queryResults <- on_database (powersync_getAll "SELECT * FROM lists ORDER BY name" []) ;;
  let expectedCount := List.length powersyncIds + 1 in
  let hasDrizzleItem := has_drizzle_item queryResults drizzleId in
  let powersyncItemsCount := powersync_items_count queryResults powersyncIds in
  let passed0 := hooked_passed queryResults drizzleId powersyncIds in
  ret {| test_name := "Hooked connection concurrent writes succeed";
         passed := passed0;
         error :=
           if passed0 then None
           else Some ("Expected " ++ decimal expectedCount
                        ++ " items (PowerSync + Drizzle on same connection), got "
                        ++ decimal (List.length queryResults)
                        ++ ". PowerSync items: " ++ decimal powersyncItemsCount
                        ++ ", Drizzle item found: " ++ boolean_text hasDrizzleItem)%string |}.

Definition delete_by_id : string := "DELETE FROM lists WHERE id = ?".
Definition select_by_id : string := "SELECT * FROM lists WHERE id = ?".

(** One iteration of the loop of [runDeleteAndInsertSameId]. *)
Definition delete_or_insert (testId ownerId : string) (i : nat) : M World unit :=
  let isDelete := Nat.eqb (i mod 2) 0 in
  if isDelete then on_database (powersync_execute delete_by_id [testId])
  else
    on_database
      (drizzle_insert
         {| id := testId;
            name := Some ("Reinserted " ++ decimal i)%string;
            owner_id := Some ownerId |}).

(** The scenario up to and including the first [n] iterations of the
    loop; it yields the two identifiers drawn. *)
Definition tombstone_cycles (n : nat) : M World (string * string) :=
  on_database (powersync_execute "DELETE FROM lists" []) ;;;
  testId <- uuid ;;
  ownerId <- uuid ;;
  on_database (powersync_execute insert_list [testId; "Initial"; ownerId]) ;;;
  for_each (seq 0 n) (delete_or_insert testId ownerId) ;;;
  ret (testId, ownerId).

(** [runDeleteAndInsertSameId] *)
Definition runDeleteAndInsertSameId : M World TestResult :=
  ids <- tombstone_cycles 10 ;;
  let testId := fst ids in
  queryResults <- on_database (powersync_getAll select_by_id [testId]) ;;
  let finalState := List.length queryResults in
  let passed0 := Nat.leb finalState 1 in
  ret {| test_name := "Delete+insert same ID (tombstone scenario) succeeds";
         passed := passed0;
         error :=
           if passed0 then None
           else Some ("Expected 0 or 1 row after delete+insert cycles, got "
                        ++ decimal finalState)%string |}.

End Scenarios.

Arguments database {Database Random} _.
Arguments random {Database Random} _.

End Harness.

(** ** Concrete drivers and databases

    Small executable stand-ins for the native driver and for the database
    file, on which the adapter and the harness are run. *)

Module Instances.

Import Adapter Harness.

(** *** A scripted connection *)

(** What [SQLiteSession.run] of the ORM throws when the prepared query
    threw [cause]:
    [new DrizzleError({ cause, message: `Failed to run the query '${sql}'` })].
    An error carries its name and message here; the [cause] property,
    which nothing in the repository reads, is not kept. *)
Definition DrizzleError (message : string) (cause : Thrown) : Thrown :=
  ErrorObject "DrizzleError" message.

Definition failed_to_run (text : string) (cause : Thrown) : Thrown :=
  DrizzleError ("Failed to run the query '" ++ text ++ "'") cause.

(** The store is the list of queries that took effect, as the connection
    received them.  A script tells which statement texts the connection
    refuses, and with what error; [run] passes the refusal on wrapped. *)
Definition scripted_run (script : string -> option Thrown)
    (_ : nat) (_ : unit) (_ : string) (q : SQL) (st : list Query)
    : Completion unit * list Query :=
  let query := sqlToQuery q in
  match script (query_sql query) with
  | Some e => (Throw (failed_to_run (query_sql query) e), st)
  | None => (Normal tt, st ++ [query])
  end.

Definition accepts_all (_ : string) : option Thrown := None.

Definition busy : Thrown := Error "database is locked".

(** [COMMIT] answered with SQLITE_BUSY. *)
Definition commit_busy (text : string) : option Thrown :=
  if String.eqb text "commit" then Some busy else None.

Definition no_transaction : Thrown := Error "cannot rollback - no transaction is active".

(** [ROLLBACK] refused because the engine has already ended the
    transaction. *)
Definition rollback_refused (text : string) : option Thrown :=
  if String.eqb text "rollback" then Some no_transaction else None.

Definition session0 : OPSQLiteSession nat unit unit string :=
  new_OPSQLiteSession "noop" 1 tt None {| opt_logger := None |}.

Definition world0 : Adapter.World nat (list Query) unit unit string :=
  {| store := []; trace := [] |}.

Definition returns_seven
    : OPSQLiteTransaction nat unit unit string
      -> M (Adapter.World nat (list Query) unit unit string) nat :=
  fun _ => ret 7.

Definition boom : Thrown := Error "boom".

Definition throws_boom
    : OPSQLiteTransaction nat unit unit string
      -> M (Adapter.World nat (list Query) unit unit string) nat :=
  fun _ => throw boom.

Definition immediate_read_only : OPSQLiteTransactionConfig :=
  {| behavior := Some immediate; accessMode := Some read_only |}.

Definition immediate_read_write : OPSQLiteTransactionConfig :=
  {| behavior := Some immediate; accessMode := Some read_write |}.

(** *** Identifiers and strings *)

Definition counter_uuid (n : nat) : string * nat :=
  (("uuid-" ++ decimal n)%string, S n).

Definition ascii_lower (c : ascii) : ascii :=
  let n := nat_of_ascii c in
  if Nat.leb 65 n && Nat.leb n 90 then ascii_of_nat (n + 32) else c.

(** [toLowerCase] on messages written in ASCII. *)
Fixpoint ascii_toLowerCase (s : string) : string :=
  match s with
  | EmptyString => EmptyString
  | String c rest => String (ascii_lower c) (ascii_toLowerCase rest)
  end.

(** *** The [lists] table as a list of rows *)

Definition rows_with_id (table : list Row) (i : string) : list Row :=
  filter (fun r => String.eqb (id r) i) table.

(** How many rows of the table carry the identifier [i]. *)
Definition table_count (table : list Row) (i : string) : nat :=
  List.length (rows_with_id table i).

Definition constraint_failed : Thrown := Error "UNIQUE constraint failed: lists.id".
Definition unsupported : Thrown := Error "unsupported statement".

Definition table_insert (r : Row) (table : list Row) : Completion unit * list Row :=
  match rows_with_id table (id r) with
  | [] => (Normal tt, table ++ [r])
  | _ :: _ => (Throw constraint_failed, table)
  end.

(** The statements of the harness on the table. *)
Definition table_execute (statement : string) (parameters : list string)
    (table : list Row) : Completion unit * list Row :=
  if String.eqb statement "DELETE FROM lists" then (Normal tt, [])
  else if String.eqb statement insert_list then
    match parameters with
    | [i; n; o] => table_insert {| id := i; name := Some n; owner_id := Some o |} table
    | _ => (Throw unsupported, table)
    end
  else if String.eqb statement delete_by_id then
    match parameters with
    | [i] => (Normal tt, filter (fun r => negb (String.eqb (id r) i)) table)
    | _ => (Throw unsupported, table)
    end
  else (Throw unsupported, table).

Definition name_leb (a b : Row) : bool :=
  match name a, name b with
  | None, _ => true
  | Some _, None => false
  | Some x, Some y => String.leb x y
  end.

Fixpoint insert_by_name (r : Row) (l : list Row) : list Row :=
  match l with
  | [] => [r]
  | x :: rest => if name_leb r x then r :: x :: rest else x :: insert_by_name r rest
  end.

Definition table_getAll (statement : string) (parameters : list string)
    (table : list Row) : Completion (list Row) * list Row :=
  if String.eqb statement "SELECT * FROM lists ORDER BY name" then
    (Normal (fold_right insert_by_name [] table), table)
  else if String.eqb statement select_by_id then
    match parameters with
    | [i] => (Normal (rows_with_id table i), table)
    | _ => (Throw unsupported, table)
    end
  else (Throw unsupported, table).

(** One schedule of the writes in flight: one after another, in the order
    in which they were started. *)
Fixpoint table_all (writes : list Write) (table : list Row) : Completion unit * list Row :=
  match writes with
  | [] => (Normal tt, table)
  | PowerSyncExecute statement parameters :: rest =>
      match table_execute statement parameters table with
      | (Normal _, t) => table_all rest t
      | (Throw e, t) => (Throw e, t)
      end
  | DrizzleInsert r :: rest =>
      match table_insert r table with
      | (Normal _, t) => table_all rest t
      | (Throw e, t) => (Throw e, t)
      end
  end.

(** The separate connection, idle: every statement is accepted. *)
Definition separate_idle (_ : string) (table : list Row) : Completion unit * list Row :=
  (Normal tt, table).

(** The separate connection cannot take the write lock. *)
Definition separate_busy (statement : string) (table : list Row)
    : Completion unit * list Row :=
  if String.eqb statement "BEGIN IMMEDIATE TRANSACTION" then (Throw busy, table)
  else (Normal tt, table).

(** A managed connection that answers every write with SQLITE_BUSY. *)
Definition managed_busy (_ : string) (_ : list string) (table : list Row)
    : Completion unit * list Row :=
  (Throw busy, table).

Definition start : Harness.World (list Row) nat :=
  {| database := []; random := 0 |}.

(** *** Buffers of the commit hook *)

Definition listening : list Hooks.DBAdapterListener :=
  [ {| Hooks.listener_id := 0; Hooks.has_tablesUpdated := true |};
    {| Hooks.listener_id := 1; Hooks.has_tablesUpdated := false |} ].

Definition system_with (buffer : list Hooks.UpdateNotification) : Hooks.System :=
  {| Hooks.updateBuffer := buffer;
     Hooks.listeners := listening;
     Hooks.notified := [] |}.

Definition inserted (t : string) (row : N) : Hooks.UpdateNotification :=
  {| Hooks.table := t; Hooks.opType := Some Hooks.SQLITE_INSERT; Hooks.rowId := row |}.

(** One insert into a table that is called [constructor]. *)
Definition constructor_buffer : list Hooks.UpdateNotification :=
  [ inserted "constructor" 1 ].

(** Inserts into [lists] and [todos], interleaved. *)
Definition two_tables_buffer : list Hooks.UpdateNotification :=
  [ inserted "lists" 1; inserted "todos" 1; inserted "lists" 2 ].

(** *** The run of the hundred and one inserts on the table model *)

Definition hooked_ids : list string :=
  Eval vm_compute in map (fun n => fst (counter_uuid n)) (seq 1 100).

Definition hooked_writes : list Write :=
  Eval vm_compute in
    match start_powersync_writes (list Row) nat counter_uuid hooked_ids
            {| database := []; random := 101 |} with
    | (Normal writes, _) => writes
    | (Throw _, _) => []
    end.

Definition hooked_table : list Row :=
  Eval vm_compute in
    snd (table_all
           (hooked_writes
              ++ [DrizzleInsert {| id := "uuid-0"; name := Some hooked_name;
                                   owner_id := Some "uuid-201" |}])
           []).

Definition hooked_rows : list Row :=
  Eval vm_compute in
    match table_getAll "SELECT * FROM lists ORDER BY name" [] hooked_table with
    | (Normal rows, _) => rows
    | (Throw _, _) => []
    end.

End Instances.

(** ** The identifiers of the harness *)

Module Uuid.

(** The pattern that [uuid] fills in. *)
Definition template : string := "xxxxxxxx-xxxx-4xxx-yxxx-xxxxxxxxxxxx".

(** [v.toString(16)] for an integer [v] that is not negative. *)
Definition toString16 (v : N) : string :=
  HexadecimalString.NilZero.string_of_uint (N.to_hex_uint v).

Section Random.

(** The state of [Math.random], and one evaluation of
    [(Math.random() * 16) | 0]. *)
Variable Random : Type.
Variable random16 : Random -> N * Random.

(** The replacement callback, given the number [r] it draws:
    [const v = c === 'x' ? r : (r & 0x3) | 0x8; return v.toString(16)]. *)
Definition replacement (c : ascii) (r : N) : string :=
  let v := if Ascii.eqb c "x" then r else N.lor (N.land r 3) 8 in
  toString16 v.

(** [s.replace(/[xy]/g, c => ...)]: the callback is called once for each
    [x] or [y], from left to right; every other character is kept. *)
Fixpoint replace_xy (s : string) (g : Random) : string * Random :=
  match s with
  | EmptyString => (EmptyString, g)
  | String c rest =>
      if Ascii.eqb c "x" || Ascii.eqb c "y" then
        let (r, g1) := random16 g in
        let (out, g2) := replace_xy rest g1 in
        ((replacement c r ++ out)%string, g2)
      else
        let (out, g2) := replace_xy rest g in
        (String c out, g2)
  end.

(** [uuid()] *)
Definition uuid (g : Random) : string * Random := replace_xy template g.

End Random.

(** A lowercase hexadecimal digit. *)
Definition hexadecimal (c : ascii) : bool :=
  existsb (Ascii.eqb c) (list_ascii_of_string "0123456789abcdef").

(** One of the four digits that mark the variant of an identifier. *)
Definition variant (c : ascii) : bool :=
  existsb (Ascii.eqb c) (list_ascii_of_string "89ab").

(** [s] is [pattern] with a hexadecimal digit for each [x] and a variant
    digit for each [y]. *)
Fixpoint fits (pattern s : string) : bool :=
  match pattern, s with
  | EmptyString, EmptyString => true
  | String p ps, String c cs =>
      (if Ascii.eqb p "x" then hexadecimal c
       else if Ascii.eqb p "y" then variant c
       else Ascii.eqb p c)
      && fits ps cs
  | _, _ => false
  end.

(** A source of numbers for runs: a counter, reduced below sixteen. *)
Definition counter16 (n : N) : N * N := ((n mod 16)%N, (n + 7)%N).

End Uuid.

(** ** The upload connector of the demo *)

Module Connector.

Import Harness.

Section Upload.

(** The sync engine's database and the HTTP backend, the kind of a crud
    operation, the data it carries, and an HTTP response. *)
Variables (Backend Op OpData Response : Type).

(** An entry of [transaction.crud], as far as [uploadData] reads it. *)
Record CrudEntry : Type := {
  op : Op;
  entry_table : string;
  entry_id : string;
  opData : option OpData
}.

(** The payload built for an entry. *)
Record Payload : Type := {
  payload_op : Op;
  payload_table : string;
  payload_id : string;
  payload_data : option OpData
}.

(** A crud transaction: its entries and the handle that [complete] acts
    on. *)
Record CrudTransaction : Type := {
  crud : list CrudEntry;
  transaction_id : nat
}.

(** The calls that leave the connector. *)
Inductive Call : Type :=
| GetNextCrudTransaction
| GetClientId
| Fetch (url method body : string)
| ResponseText
| Complete (transaction : nat).

Record World : Type := {
  _clientId : option string;
  backend : Backend;
  calls : list Call
}.

(** [database.getNextCrudTransaction()], [database.getClientId()],
    [fetch(url, { method, headers, body })], [response.ok],
    [response.status], [response.text()], [transaction.complete()] and
    [JSON.stringify({ batch })]. *)
Variable getNextCrudTransaction : Backend -> Completion (option CrudTransaction) * Backend.
Variable getClientId : Backend -> Completion string * Backend.
Variable fetch : string -> string -> string -> Backend -> Completion Response * Backend.
Variable ok : Response -> bool.
Variable status : Response -> nat.
Variable response_text : Response -> Backend -> Completion string * Backend.
Variable complete : CrudTransaction -> Backend -> Completion unit * Backend.
Variable JSON_stringify : list Payload -> string.

(** A call: it is recorded, then made. *)
Definition call {T} (c : Call) (f : Backend -> Completion T * Backend) : M World T :=
  fun w =>
    match f (backend w) with
    | (r, b) =>
        (r, {| _clientId := _clientId w; backend := b; calls := calls w ++ [c] |})
    end.

Definition set_clientId (value : string) : M World unit :=
  fun w =>
    (Normal tt,
     {| _clientId := Some value; backend := backend w; calls := calls w |}).

(** [!this._clientId]: [null] and the empty string are falsy. *)
Definition no_clientId (w : World) : bool :=
  match _clientId w with
  | None => true
  | Some value => String.eqb value ""
  end.

(** [if (!this._clientId) { this._clientId = await database.getClientId(); }] *)
Definition ensure_clientId : M World unit :=
  fun w =>
    if no_clientId w then (value <- call GetClientId getClientId ;; set_clientId value) w
    else (Normal tt, w).

(** The payload of one operation. *)
Definition payload_of (operation : CrudEntry) : Payload :=
  {| payload_op := op operation;
     payload_table := entry_table operation;
     payload_id := entry_id operation;
     payload_data := opData operation |}.

(** [let batch = []; for (let operation of transaction.crud) { batch.push(payload); }] *)
Definition build_batch (entries : list CrudEntry) : list Payload :=
  fold_left (fun batch operation => batch ++ [payload_of operation]) entries [].

Definition data_url : string := "http://localhost:6060/api/data".

(** The error thrown for a response that is not [ok]. *)
Definition rejected (response : Response) (text : string) : Thrown :=
  Error ("Received " ++ decimal (status response) ++ " from /api/data: " ++ text)%string.

(** [uploadData(database)].  The constant [headers] of the request and
    the two [console] calls are left out. *)
Definition uploadData : M World unit :=
  transaction <- call GetNextCrudTransaction getNextCrudTransaction ;;
  match transaction with
  | None => ret tt
  | Some transaction =>
      ensure_clientId ;;;
      try_catch
        (let batch := build_batch (crud transaction) in
         let body := JSON_stringify batch in
         response <- call (Fetch data_url "POST" body) (fetch data_url "POST" body) ;;
         (if negb (ok response) then
            text <- call ResponseText (response_text response) ;;
            throw (rejected response text)
          else ret tt) ;;;
         call (Complete (transaction_id transaction)) (complete transaction))
        (fun ex => throw ex)
  end.

End Upload.

Arguments op {Op OpData} _.
Arguments entry_table {Op OpData} _.
Arguments entry_id {Op OpData} _.
Arguments opData {Op OpData} _.
Arguments payload_op {Op OpData} _.
Arguments payload_table {Op OpData} _.
Arguments payload_id {Op OpData} _.
Arguments payload_data {Op OpData} _.
Arguments crud {Op OpData} _.
Arguments transaction_id {Op OpData} _.
Arguments _clientId {Backend} _.
Arguments backend {Backend} _.
Arguments calls {Backend} _.
Arguments payload_of {Op OpData} operation.
Arguments build_batch {Op OpData} entries.

(** *** A backend for runs *)

(** The backend holds the pending transactions and the bodies it has
    received; it answers every upload with the same status. *)
Record Server : Type := {
  pending : list (CrudTransaction string string);
  received : list string;
  completed : list nat
}.

Definition server_next (s : Server)
    : Completion (option (CrudTransaction string string)) * Server :=
  match pending s with
  | [] => (Normal None, s)
  | t :: _ => (Normal (Some t), s)
  end.

Definition server_clientId (s : Server) : Completion string * Server :=
  (Normal "client-1", s).

Definition server_fetch (answer : nat) (url method body : string) (s : Server)
    : Completion nat * Server :=
  (Normal answer,
   {| pending := pending s; received := received s ++ [body]; completed := completed s |}).

Definition server_ok (answer : nat) : bool :=
  Nat.leb 200 answer && Nat.leb answer 299.

Definition server_text (answer : nat) (s : Server) : Completion string * Server :=
  (Normal "refused", s).

Definition server_complete (t : CrudTransaction string string) (s : Server)
    : Completion unit * Server :=
  (Normal tt,
   {| pending := tl (pending s);
      received := received s;
      completed := completed s ++ [transaction_id t] |}).

(** A body that lists the tables and identifiers of the batch. *)
Definition server_stringify (batch : list (Payload string string)) : string :=
  String.concat ","
    (map (fun p => (payload_table p ++ "/" ++ payload_id p)%string) batch).

Definition one_pending : Server :=
  {| pending :=
       [ {| crud :=
              [ {| op := "PUT"; entry_table := "lists"; entry_id := "a";
                   opData := Some "{}" |};
                {| op := "DELETE"; entry_table := "todos"; entry_id := "b";
                   opData := None |} ];
            transaction_id := 7 |} ];
     received := [];
     completed := [] |}.

Definition fresh (s : Server) : World Server :=
  {| _clientId := None; backend := s; calls := [] |}.

Definition server_upload (answer : nat) : M (World Server) unit :=
  uploadData Server string string nat
    server_next server_clientId (server_fetch answer) server_ok (fun r => r)
    server_text server_complete server_stringify.

End Connector.

(** ** Further scenarios and the runner of the harness *)

Module Suite.

Import Harness.

Definition MIXED_OP_COUNT : nat := 50.

Definition update_name : string := "UPDATE lists SET name = ? WHERE id = ?".

(** An operation that has been started and not yet awaited:
    [powersync.execute], and an insert or an update built with the
    adapter. *)
Inductive Operation : Type :=
| Execute (statement : string) (parameters : list string)
| Insert (values : Row)
| Update (new_name : string) (where_id : string).

(** [l.map((x, index) => f(x, index))] *)
Fixpoint map_with_index {A B} (f : A -> nat -> B) (l : list A) (index : nat) : list B :=
  match l with
  | [] => []
  | x :: rest => f x index :: map_with_index f rest (S index)
  end.

(** [r.name?.startsWith(prefix)], read as a condition. *)
Definition named (prefix : string) (r : Row) : bool :=
  match name r with
  | Some n => String.prefix prefix n
  | None => false
  end.

(** [queryResults.filter(r => r.name?.startsWith(prefix)).length] *)
Definition count_named (prefix : string) (queryResults : list Row) : nat :=
  List.length (filter (named prefix) queryResults).

Section Scenarios.

Variables (Database Random : Type).
Variable draw_uuid : Random -> string * Random.
Variable powersync_execute : string -> list string -> Database -> Completion unit * Database.
Variable powersync_getAll : string -> list string -> Database -> Completion (list Row) * Database.

(** [Promise.all] over operations in flight, and over asynchronous
    functions in flight, each of which awaits its operations one after
    another. *)
Variable settle : list Operation -> Database -> Completion unit * Database.
Variable settle_tasks : list (list Operation) -> Database -> Completion unit * Database.

Local Abbreviation World := (Harness.World Database Random).
Local Abbreviation on_database := (Harness.on_database Database Random).
Local Abbreviation uuid := (Harness.uuid Database Random draw_uuid).
Local Abbreviation uuids := (Harness.uuids Database Random draw_uuid).

(** The verdict of [runConcurrentUpdates] on the rows of the final
    [SELECT]. *)
Definition updates_passed (queryResults : list Row) : bool :=
  Nat.eqb (List.length queryResults) MIXED_OP_COUNT
  && Nat.eqb (count_named "PowerSync Updated" queryResults) (MIXED_OP_COUNT / 2)
  && Nat.eqb (count_named "Drizzle Updated" queryResults) (MIXED_OP_COUNT / 2)
  && Nat.eqb (count_named "Original Name" queryResults) 0.

(** [runConcurrentUpdates] *)
Definition runConcurrentUpdates : M World TestResult :=
  on_database (powersync_execute "DELETE FROM lists" []) ;;;
  updateIds <- uuids MIXED_OP_COUNT ;;
  inserts <- map_indexed
               (fun id0 index =>
                  owner <- uuid ;;
                  ret (Execute insert_list
                         [id0; ("Original Name " ++ decimal index)%string; owner]))
               updateIds 0 ;;
  on_database (settle inserts) ;;;
  let powersyncUpdates :=
    map_with_index
      (fun id0 index =>
         Execute update_name [("PowerSync Updated " ++ decimal index)%string; id0])
      (firstn (MIXED_OP_COUNT / 2) updateIds) 0 in
  let drizzleUpdates :=
    map_with_index
      (fun id0 index => Update ("Drizzle Updated " ++ decimal index)%string id0)
      (skipn (MIXED_OP_COUNT / 2) updateIds) 0 in
  on_database (settle (powersyncUpdates ++ drizzleUpdates)) ;;;
  queryResults <- on_database (powersync_getAll "SELECT * FROM lists" []) ;;
  let powersyncUpdatedCount := count_named "PowerSync Updated" queryResults in
  let drizzleUpdatedCount := count_named "Drizzle Updated" queryResults in
  let originalCount := count_named "Original Name" queryResults in
  let passed0 := updates_passed queryResults in
  ret {| test_name := "Concurrent updates (PowerSync + Drizzle) succeed";
         passed := passed0;
         error :=
           if passed0 then None
           else Some ("Expected " ++ decimal MIXED_OP_COUNT ++ " total ("
                        ++ decimal (MIXED_OP_COUNT / 2) ++ " each), got "
                        ++ decimal (List.length queryResults)
                        ++ " total. PowerSync: " ++ decimal powersyncUpdatedCount
                        ++ ", Drizzle: " ++ decimal drizzleUpdatedCount
                        ++ ", Unchanged: " ++ decimal originalCount)%string |}.

Definition mixed_name : string := "Mixed API transactions succeed".

(** [queryResults.some(r => r.id === id && r.name === name)] *)
Definition has_row (queryResults : list Row) (id0 name0 : string) : bool :=
  existsb
    (fun r =>
       String.eqb (id r) id0
       && match name r with
          | Some n => String.eqb n name0
          | None => false
          end)
    queryResults.

(** The three asynchronous pieces of work that [runTransactionsMixedAPIs]
    starts, with the identifiers drawn for them: each asynchronous
    function runs up to its first [await] when it is called, which is
    where the owner of its insert is drawn. *)
Definition mixed_tasks : M World (string * string * string * list (list Operation)) :=
  txnId1 <- uuid ;;
  txnId2 <- uuid ;;
  txnId3 <- uuid ;;
  owner1 <- uuid ;;
  let txn1 :=
    [ Execute insert_list [txnId1; "PowerSync Transaction"; owner1];
      Execute update_name ["PowerSync Transaction Updated"; txnId1] ] in
  owner2 <- uuid ;;
  let txn2 :=
    [ Insert {| id := txnId2; name := Some "Drizzle Transaction";
                owner_id := Some owner2 |};
      Update "Drizzle Transaction Updated" txnId2 ] in
  owner3 <- uuid ;;
  let txn3 := [ Execute insert_list [txnId3; "Interleaved Insert"; owner3] ] in
  ret (txnId1, txnId2, txnId3, [txn1; txn2; txn3]).

(** The result returned from the [catch] block. *)
Definition transaction_failed (err : Thrown) : TestResult :=
  {| test_name := mixed_name;
     passed := false;
     error := Some ("Transaction failed: " ++ message_or_string err)%string |}.

(** [runTransactionsMixedAPIs] *)
Definition runTransactionsMixedAPIs : M World TestResult :=
  on_database (powersync_execute "DELETE FROM lists" []) ;;;
  started <- mixed_tasks ;;
  let '(txnId1, txnId2, txnId3, tasks) := started in
  returned <- try_catch
                (on_database (settle_tasks tasks) ;;; ret None)
                (fun err => ret (Some (transaction_failed err))) ;;
  match returned with
  | Some result => ret result
  | None =>
      queryResults <- on_database (powersync_getAll "SELECT * FROM lists ORDER BY id" []) ;;
      let hasTxn1 := has_row queryResults txnId1 "PowerSync Transaction Updated" in
      let hasTxn2 := has_row queryResults txnId2 "Drizzle Transaction Updated" in
      let hasTxn3 := has_row queryResults txnId3 "Interleaved Insert" in
      let passed0 := hasTxn1 && hasTxn2 && hasTxn3 in
      ret {| test_name := mixed_name;
             passed := passed0;
             error :=
               if passed0 then None
               else Some ("Expected all 3 transactions to complete. PowerSync: "
                            ++ boolean_text hasTxn1 ++ ", Drizzle: "
                            ++ boolean_text hasTxn2 ++ ", Interleaved: "
                            ++ boolean_text hasTxn3)%string |}
  end.

End Scenarios.

(** *** The runner *)

Section Runner.

(** The device: database files, connections, and whatever [onResult]
    acts on. *)
Variable Device : Type.

(** [new PowerSyncDatabase(...)], [powersync.init()], [open({ name })],
    whether [adapter?.writeConnection?.DB] is there, the scenarios in the
    order in which they are awaited, the callback [onResult], and the two
    [close] calls. *)
Variable new_PowerSyncDatabase : Device -> Completion unit * Device.
Variable powersync_init : Device -> Completion unit * Device.
Variable open_connection : Device -> Completion unit * Device.
Variable has_write_connection : Device -> bool.
Variable scenarios : list (Device -> Completion TestResult * Device).
Variable onResult : TestResult -> Device -> Completion unit * Device.
Variable powersync_close : Device -> Completion unit * Device.
Variable separate_close : Device -> Completion unit * Device.

(** The device together with the local variables of
    [runSimultaneousWritesTest]; for the two connections, whether the
    variable has been assigned. *)
Record Locals : Type := {
  device : Device;
  results : list TestResult;
  powersync : bool;
  separateWriteConnection : bool
}.

Definition on_device {T} (op : Device -> Completion T * Device) : M Locals T :=
  fun l =>
    match op (device l) with
    | (c, d) =>
        (c, {| device := d; results := results l; powersync := powersync l;
               separateWriteConnection := separateWriteConnection l |})
    end.

Definition assign_powersync : M Locals unit :=
  fun l =>
    (Normal tt,
     {| device := device l; results := results l; powersync := true;
        separateWriteConnection := separateWriteConnection l |}).

Definition assign_separateWriteConnection : M Locals unit :=
  fun l =>
    (Normal tt,
     {| device := device l; results := results l; powersync := powersync l;
        separateWriteConnection := true |}).

(** [results.push(result); onResult(result)] *)
Definition addResult (result : TestResult) : M Locals unit :=
  fun l =>
    on_device (onResult result)
      {| device := device l; results := results l ++ [result];
         powersync := powersync l;
         separateWriteConnection := separateWriteConnection l |}.

(** [getPowerSyncWriteDB(powersync)] *)
Definition getPowerSyncWriteDB : M Locals unit :=
  fun l =>
    if has_write_connection (device l) then (Normal tt, l)
    else (Throw (Error "PowerSync write connection not available"), l).

(** The [try] block up to the first scenario.  Setting the logger up and
    [drizzle(db, { schema })] only build objects and are left out. *)
Definition set_up : M Locals unit :=
  on_device new_PowerSyncDatabase ;;;
  assign_powersync ;;;
  on_device powersync_init ;;;
  on_device open_connection ;;;
  assign_separateWriteConnection ;;;
  getPowerSyncWriteDB.

(** [addResult(await scenario(...))] *)
Definition run_scenario (scenario : Device -> Completion TestResult * Device)
    : M Locals unit :=
  result <- on_device scenario ;;
  addResult result.

(** The scenarios [ss] ran to their end one after the other, starting on
    device [d]: each returned its result, which [onResult] then took
    without throwing; [rs] lists the results in that order and [d'] is the
    device they left. *)
Inductive ran : list (Device -> Completion TestResult * Device) -> Device
                -> list TestResult -> Device -> Prop :=
| ran_none (d : Device) : ran [] d [] d
| ran_next (s : Device -> Completion TestResult * Device)
    (ss : list (Device -> Completion TestResult * Device))
    (d d1 d2 d3 : Device) (r : TestResult) (rs : list TestResult) :
    s d = (Normal r, d1) ->
    onResult r d1 = (Normal tt, d2) ->
    ran ss d2 rs d3 ->
    ran (s :: ss) d (r :: rs) d3.

(** The entry that the [catch] block adds. *)
Definition harness_error (err : Thrown) : TestResult :=
  {| test_name := "Simultaneous writes test harness";
     passed := false;
     error := Some (message_or_string err) |}.

(** The [finally] block. *)
Definition close_all : M Locals unit :=
  (fun l => if powersync l then on_device powersync_close l else (Normal tt, l)) ;;;
  (fun l => if separateWriteConnection l then on_device separate_close l
            else (Normal tt, l)).

(** The local variables when the function is entered:
    [results = []], [powersync = null], [separateWriteConnection = null]. *)
Definition fresh_locals (d : Device) : Locals :=
  {| device := d; results := []; powersync := false;
     separateWriteConnection := false |}.

(** [runSimultaneousWritesTest(onResult)] *)
Definition runSimultaneousWritesTest : M Device (list TestResult) :=
  fun d =>
    match
      (try_finally
         (try_catch
            (set_up ;;; for_each scenarios run_scenario)
            (fun err => addResult (harness_error err)))
         close_all ;;;
       (fun l => (Normal (results l), l)))
        (fresh_locals d)
    with
    | (c, l) => (c, device l)
    end.

End Runner.

Arguments device {Device} _.
Arguments results {Device} _.
Arguments powersync {Device} _.
Arguments separateWriteConnection {Device} _.

(** *** A device for runs: the log of what happened on it *)

Definition logs (entry : string) (d : list string) : Completion unit * list string :=
  (Normal tt, d ++ [entry]).

Definition passes (title : string) (d : list string)
    : Completion TestResult * list string :=
  (Normal {| test_name := title; passed := true; error := None |}, d ++ [title]).

Definition crashes (title : string) (d : list string)
    : Completion TestResult * list string :=
  (Throw (Error (title ++ " crashed")%string), d ++ [title]).

Definition three_scenarios : list (list string -> Completion TestResult * list string) :=
  [passes "first"; crashes "second"; passes "third"].

Definition run_three : M (list string) (list TestResult) :=
  runSimultaneousWritesTest (list string)
    (logs "new") (logs "init") (logs "open") (fun _ => true)
    three_scenarios (fun _ d => (Normal tt, d))
    (logs "close powersync") (logs "close separate").

(** The same run on a device whose sync engine has no write connection. *)
Definition run_without_connection : M (list string) (list TestResult) :=
  runSimultaneousWritesTest (list string)
    (logs "new") (logs "init") (logs "open") (fun _ => false)
    three_scenarios (fun _ d => (Normal tt, d))
    (logs "close powersync") (logs "close separate").

(** *** A table that can also be updated *)

Definition table_update (new_name where_id : string) (table : list Row) : list Row :=
  map (fun r =>
         if String.eqb (id r) where_id
         then {| id := id r; name := Some new_name; owner_id := owner_id r |}
         else r)
      table.

Definition updatable_execute (statement : string) (parameters : list string)
    (table : list Row) : Completion unit * list Row :=
  if String.eqb statement update_name then
    match parameters with
    | [n; i] => (Normal tt, table_update n i table)
    | _ => (Throw Instances.unsupported, table)
    end
  else Instances.table_execute statement parameters table.

Definition updatable_getAll (statement : string) (parameters : list string)
    (table : list Row) : Completion (list Row) * list Row :=
  if String.eqb statement "SELECT * FROM lists" then (Normal table, table)
  else Instances.table_getAll statement parameters table.

(** One schedule of the operations in flight: in the order in which they
    were started. *)
Fixpoint table_settle (operations : list Operation) (table : list Row)
    : Completion unit * list Row :=
  match operations with
  | [] => (Normal tt, table)
  | operation :: rest =>
      match
        match operation with
        | Execute statement parameters => updatable_execute statement parameters table
        | Insert r => Instances.table_insert r table
        | Update n i => (Normal tt, table_update n i table)
        end
      with
      | (Normal _, t) => table_settle rest t
      | (Throw e, t) => (Throw e, t)
      end
  end.

(** Asynchronous work that fails on a locked database. *)
Definition tasks_busy (_ : list (list Operation)) (table : list Row)
    : Completion unit * list Row :=
  (Throw Instances.busy, table).

End Suite.

(** ** Further drivers and callbacks *)

Module MoreInstances.

Import Adapter Instances.

(** The opening statement answered with SQLITE_BUSY, whatever its
    behaviour. *)
Definition begin_busy (text : string) : option Thrown :=
  if String.prefix "begin" text then Some busy else None.

(** [COMMIT] answered with SQLITE_BUSY, and the [ROLLBACK] that follows
    refused as well. *)
Definition commit_and_rollback_refused (text : string) : option Thrown :=
  if String.eqb text "commit" then Some busy
  else if String.eqb text "rollback" then Some no_transaction
  else None.


(** *** Updates reported by the driver *)

Definition reported (operation t : string) (row : N) : Hooks.UpdateHookData :=
  {| Hooks.update_operation := operation;
     Hooks.update_table := t;
     Hooks.update_rowId := row |}.

(** A transaction that inserts into [lists], updates [todos] and deletes
    from [lists]. *)
Definition reported_updates : list Hooks.UpdateHookData :=
  [ reported "INSERT" "lists" 4; reported "UPDATE" "todos" 2; reported "DELETE" "lists" 3 ].

End MoreInstances.

(** * Properties *)

(** ** The transaction wrapper and the database factory *)

Module AdapterFacts.

Import Adapter Instances.

Section Session.

Variables (DB Store Dialect Schema Logger : Type).
Variable NoopLogger : Logger.
Variable prepared_run : DB -> Dialect -> Logger -> SQL -> Store -> Completion unit * Store.

Local Abbreviation World := (Adapter.World DB Store Dialect Schema Logger).
Local Abbreviation Session := (OPSQLiteSession DB Dialect Schema Logger).
Local Abbreviation Transaction := (OPSQLiteTransaction DB Dialect Schema Logger).
Local Abbreviation transaction := (OPSQLiteSession_transaction NoopLogger prepared_run).
Local Abbreviation run := (Adapter.run prepared_run).
Local Abbreviation new_tx := (Adapter.new_tx NoopLogger).

(** [run] hands exactly one statement to the connection of the session,
    whether or not the driver accepts it. *)
Lemma run_trace (this : OPSQLiteBaseSession DB Dialect Schema Logger) (q : SQL)
    (w : World) :
  trace (snd (run this q w)) = trace w ++ [Executed (db this) q].
Proof.
  unfold Adapter.run. simpl.
  destruct (prepared_run (db this) (dialect this) (logger this) q (store w));
    reflexivity.
Qed.

(** The query rendered for the opening statement: the suffix is bound as
    a parameter, and the text is [begin?] whatever the behaviour. *)
Lemma begin_query (config : OPSQLiteTransactionConfig) :
  sqlToQuery (begin_statement config)
  = {| query_sql := "begin?"; query_params := [behavior_suffix config] |}.
Proof.
  reflexivity.
Qed.

(** The text rendered is not the statement that the template spells. *)
Lemma begin_text_differs (config : OPSQLiteTransactionConfig) :
  template_text (begin_statement config) <> ("begin" ++ behavior_suffix config)%string.
Proof.
  unfold template_text. rewrite begin_query. cbn [query_sql].
  unfold behavior_suffix.
  destruct (behavior config) as [b |]; [destruct b |]; discriminate.
Qed.

(** When the opening statement is refused, the callback is not entered
    and the error of the refused statement is the outcome. *)
Lemma transaction_begin_refused {T} (this : Session) (f : Transaction -> M World T)
    (config : OPSQLiteTransactionConfig) (w w1 : World) (e : Thrown) :
  run (base this) (begin_statement config) w = (Throw e, w1) ->
  transaction this f config w = (Throw e, w1).
Proof.
  intros Hbegin. unfold OPSQLiteSession_transaction, bind. rewrite Hbegin.
  reflexivity.
Qed.

(** When [commit] is refused, [rollback] is run and, if accepted, the
    error of [commit] is thrown instead of the callback's value. *)
Lemma transaction_commit_refused {T} (this : Session) (f : Transaction -> M World T)
    (config : OPSQLiteTransactionConfig) (w w1 w2 w3 w4 : World) (v : T) (e : Thrown) :
  run (base this) (begin_statement config) w = (Normal tt, w1) ->
  f (new_tx this) (record (Entered (new_tx this)) w1) = (Normal v, w2) ->
  run (base this) commit_statement w2 = (Throw e, w3) ->
  run (base this) rollback_statement w3 = (Normal tt, w4) ->
  transaction this f config w = (Throw e, w4).
Proof.
  intros Hbegin Hf Hcommit Hrollback.
  unfold OPSQLiteSession_transaction, bind, try_catch, invoke.
  rewrite Hbegin, Hf, Hcommit, Hrollback. reflexivity.
Qed.

(** When [rollback] is refused, its error replaces the one the callback
    threw. *)
Lemma transaction_rollback_refused {T} (this : Session) (f : Transaction -> M World T)
    (config : OPSQLiteTransactionConfig) (w w1 w2 w3 : World) (e e' : Thrown) :
  run (base this) (begin_statement config) w = (Normal tt, w1) ->
  f (new_tx this) (record (Entered (new_tx this)) w1) = (Throw e, w2) ->
  run (base this) rollback_statement w2 = (Throw e', w3) ->
  transaction this f config w = (Throw e', w3).
Proof.
  intros Hbegin Hf Hrollback.
  unfold OPSQLiteSession_transaction, bind, try_catch, invoke.
  rewrite Hbegin, Hf, Hrollback. reflexivity.
Qed.

(** C1 (the code departs from it).  For every configuration the opening
    statement reaches the connection as the text [begin?], with
    [config.behavior] (after a space; the empty string when it is absent)
    bound as its only parameter: the text is never [begin] nor [begin]
    followed by the behaviour.  That query is the first thing handed to
    the connection of the session; when it is refused, its error is the
    outcome and the callback is not entered; when it is accepted and the
    callback returns [v], [commit] (rendered as written, without
    parameters) is handed to the same connection after the callback, and,
    [commit] accepted, [v] is returned. *)
Theorem transaction_opening_query {T} (this : Session) (f : Transaction -> M World T)
    (config : OPSQLiteTransactionConfig) (w : World) :
  sqlToQuery (begin_statement config)
  = {| query_sql := "begin?";
       query_params := [match behavior config with
                        | Some b => (" " ++ behavior_text b)%string
                        | None => ""
                        end] |}
  /\ template_text (begin_statement config)
     <> match behavior config with
        | Some b => ("begin " ++ behavior_text b)%string
        | None => "begin"
        end
  /\ sqlToQuery commit_statement = {| query_sql := "commit"; query_params := [] |}
  /\ trace (snd (run (base this) (begin_statement config) w))
     = trace w ++ [Executed (db (base this)) (begin_statement config)]
  /\ (forall e w1,
        run (base this) (begin_statement config) w = (Throw e, w1) ->
        transaction this f config w = (Throw e, w1))
  /\ (forall w1 w2 w3 v,
        run (base this) (begin_statement config) w = (Normal tt, w1) ->
        f (new_tx this) (record (Entered (new_tx this)) w1) = (Normal v, w2) ->
        run (base this) commit_statement w2 = (Normal tt, w3) ->
        transaction this f config w = (Normal v, w3)
        /\ trace (record (Entered (new_tx this)) w1)
           = trace w ++ [Executed (db (base this)) (begin_statement config);
                         Entered (new_tx this)]
        /\ trace w3 = trace w2 ++ [Executed (db (base this)) commit_statement]).
Proof.
  split; [| split; [| split; [| split; [| split]]]].
  - apply begin_query.
  - pose proof (begin_text_differs config) as Hd. unfold behavior_suffix in Hd.
    destruct (behavior config) as [b |]; [destruct b |]; exact Hd.
  - reflexivity.
  - apply run_trace.
  - intros e w1 Hbegin. exact (transaction_begin_refused this f config w w1 e Hbegin).
  - intros w1 w2 w3 v Hbegin Hf Hcommit.
    split; [| split].
    + unfold OPSQLiteSession_transaction, bind, try_catch, invoke.
      rewrite Hbegin, Hf, Hcommit. reflexivity.
    + pose proof (run_trace (base this) (begin_statement config) w) as Ht.
      rewrite Hbegin in Ht. simpl in Ht. simpl. rewrite Ht.
      rewrite <- app_assoc. reflexivity.
    + pose proof (run_trace (base this) commit_statement w2) as Ht.
      rewrite Hcommit in Ht. exact Ht.
Qed.

(** The outcome of a transaction whose callback throws and whose
    [rollback] is accepted. *)
Lemma transaction_rethrows {T} (this : Session) (f : Transaction -> M World T)
    (config : OPSQLiteTransactionConfig) (w w1 w2 w3 : World) (e : Thrown) :
  run (base this) (begin_statement config) w = (Normal tt, w1) ->
  f (new_tx this) (record (Entered (new_tx this)) w1) = (Throw e, w2) ->
  run (base this) rollback_statement w2 = (Normal tt, w3) ->
  transaction this f config w = (Throw e, w3).
Proof.
  intros Hbegin Hf Hrollback.
  unfold OPSQLiteSession_transaction, bind, try_catch, invoke.
  rewrite Hbegin, Hf, Hrollback. reflexivity.
Qed.

(** C2 (as amended).  Provided the driver accepts the opening statement
    and [rollback], a callback that throws [e] makes
    [OPSQLiteSession.transaction] hand [rollback] to the connection of the
    session right after the callback, with no [commit] in between, and
    throw [e] itself. *)
Theorem transaction_rolls_back {T} (this : Session) (f : Transaction -> M World T)
    (config : OPSQLiteTransactionConfig) (w w1 w2 w3 : World) (e : Thrown) :
  run (base this) (begin_statement config) w = (Normal tt, w1) ->
  f (new_tx this) (record (Entered (new_tx this)) w1) = (Throw e, w2) ->
  run (base this) rollback_statement w2 = (Normal tt, w3) ->
  transaction this f config w = (Throw e, w3)
  /\ trace w3 = trace w2 ++ [Executed (db (base this)) rollback_statement]
  /\ template_text rollback_statement = "rollback".
Proof.
  intros Hbegin Hf Hrollback.
  split; [| split].
  - exact (transaction_rethrows this f config w w1 w2 w3 e Hbegin Hf Hrollback).
  - pose proof (run_trace (base this) rollback_statement w2) as Ht.
    rewrite Hrollback in Ht. exact Ht.
  - reflexivity.
Qed.

(** C3.  On the transaction object that [OPSQLiteSession.transaction]
    builds for its callback, [tx.transaction(g, config)] throws
    [Error('Nested transactions are not supported')] whatever [g] and
    [config] are; the world is left as it was, so no statement is run and
    [g] is not entered. *)
Theorem nested_transaction_rejected {T} (this : Session) (g : Transaction -> M World T)
    (config : OPSQLiteTransactionConfig) (w : World) :
  tx_transaction NoopLogger prepared_run (new_tx this) g config w
  = (Throw (Error "Nested transactions are not supported"), w).
Proof.
  reflexivity.
Qed.


(** C8.  Two configurations with the same [behavior] (so that they can
    differ in [accessMode] only) give the same transaction: the same
    outcome and the same final world, hence the same statements. *)
Theorem accessMode_ignored {T} (this : Session) (f : Transaction -> M World T)
    (c1 c2 : OPSQLiteTransactionConfig) (w : World) :
  behavior c1 = behavior c2 ->
  transaction this f c1 w = transaction this f c2 w.
Proof.
  intros Hsame.
  unfold OPSQLiteSession_transaction, begin_statement, behavior_suffix.
  rewrite Hsame. reflexivity.
Qed.

End Session.

Section Factory.

Variables (DB Dialect Schema Logger FullSchema Casing CacheFn : Type).
Variables (NoopLogger DefaultLogger : Logger).
Variable SQLiteSyncDialect : option Casing -> Dialect.
Variable relational_config : FullSchema -> Schema.

Local Abbreviation drizzle :=
  (Adapter.drizzle NoopLogger DefaultLogger SQLiteSyncDialect relational_config).

(** The session of a database reports through
    [options.logger ?? new NoopLogger()], where [options.logger] is the
    local [logger] of [drizzle]. *)
Lemma session_logger_drizzle (client0 : DB)
    (config : DrizzleConfig Logger FullSchema Casing CacheFn) :
  session_logger (drizzle client0 config)
  = match select_logger DefaultLogger (cfg_logger config) with
    | Some l => l
    | None => NoopLogger
    end.
Proof.
  reflexivity.
Qed.

(** The session that a transaction object carries reports through the
    logger of the session that built it. *)
Lemma new_tx_logger (client0 : DB)
    (config : DrizzleConfig Logger FullSchema Casing CacheFn) :
  logger (session_fields _ _ _ _
            (tx_session (new_tx NoopLogger (database_session _ _ _ _ _ (drizzle client0 config)))))
  = session_logger (drizzle client0 config).
Proof.
  unfold session_logger. simpl.
  destruct (select_logger DefaultLogger (cfg_logger config)); reflexivity.
Qed.

(** C10.  The logger of the session that [drizzle] builds is a
    [DefaultLogger] when [config.logger] is [true], a [NoopLogger] when
    [config.logger] is [false] or absent, and otherwise the very logger
    given as [config.logger]. *)
Theorem drizzle_logger (client0 : DB) (schema0 : option FullSchema)
    (casing0 : option Casing) (cache0 : option (Cache CacheFn)) :
  let configured setting :=
    {| cfg_logger := setting; cfg_schema := schema0;
       cfg_casing := casing0; cfg_cache := cache0 |} in
  session_logger (drizzle client0 (configured (Some (LoggerFlag true)))) = DefaultLogger
  /\ session_logger (drizzle client0 (configured (Some (LoggerFlag false)))) = NoopLogger
  /\ session_logger (drizzle client0 (configured None)) = NoopLogger
  /\ forall l : Logger,
       session_logger (drizzle client0 (configured (Some (LoggerObject l)))) = l.
Proof.
  cbv zeta. repeat split.
Qed.

End Factory.

(** *** Runs on the scripted connection *)

Local Abbreviation scripted_transaction script :=
  (OPSQLiteSession_transaction "noop" (scripted_run script) session0).

(** A run of [transaction_opening_query]: a callback returning [7], under
    the behaviour [immediate].  The connection receives [begin?] with the
    parameter [ immediate], not [begin immediate]. *)
Lemma transaction_opening_query_witness :
  exists w3,
    scripted_transaction accepts_all returns_seven immediate_read_only world0
    = (Normal 7, w3)
    /\ store w3
       = [ {| query_sql := "begin?"; query_params := [" immediate"] |};
           {| query_sql := "commit"; query_params := [] |} ]
    /\ template_text (begin_statement immediate_read_only) <> "begin immediate".
Proof.
  destruct (transaction_opening_query _ _ _ _ _ "noop" (scripted_run accepts_all)
              session0 returns_seven immediate_read_only world0)
    as (_ & Htext & _ & _ & _ & Hpath).
  eexists. split; [| split].
  - refine (proj1 (Hpath _ _ _ 7 _ _ _)); reflexivity.
  - reflexivity.
  - exact Htext.
Defined.

(** A run of [transaction_rolls_back]: a callback throwing [boom]. *)
Lemma transaction_rolls_back_witness :
  exists w3,
    scripted_transaction accepts_all throws_boom empty_config world0 = (Throw boom, w3)
    /\ store w3
       = [ {| query_sql := "begin?"; query_params := [""] |};
           {| query_sql := "rollback"; query_params := [] |} ].
Proof.
  eexists. split.
  - refine (proj1 (transaction_rolls_back _ _ _ _ _ "noop" (scripted_run accepts_all)
                     session0 throws_boom empty_config world0 _ _ _ boom _ _ _));
      reflexivity.
  - reflexivity.
Defined.

(** C2 fails as stated: the callback throws [boom], the driver refuses
    [rollback], and the error the caller sees is that of the refused
    [rollback], not [boom]. *)
Lemma transaction_rollback_masks_error :
  (forall tx w, throws_boom tx w = (Throw boom, w))
  /\ fst (scripted_transaction rollback_refused throws_boom empty_config world0)
     = Throw (failed_to_run "rollback" no_transaction)
  /\ fst (scripted_transaction rollback_refused throws_boom empty_config world0)
     <> Throw boom
  /\ trace (snd (scripted_transaction rollback_refused throws_boom empty_config world0))
     = [Executed 1 (begin_statement empty_config);
        Entered (new_tx "noop" session0);
        Executed 1 rollback_statement].
Proof.
  repeat split.
  intros H. vm_compute in H. discriminate H.
Qed.

(** A run of [accessMode_ignored]: [read only] against [read write]. *)
Lemma accessMode_ignored_witness :
  accessMode immediate_read_only <> accessMode immediate_read_write
  /\ scripted_transaction accepts_all returns_seven immediate_read_only world0
     = scripted_transaction accepts_all returns_seven immediate_read_write world0.
Proof.
  split.
  - discriminate.
  - apply (accessMode_ignored _ _ _ _ _ "noop" (scripted_run accepts_all)
             session0 returns_seven immediate_read_only immediate_read_write world0).
    reflexivity.
Defined.

End AdapterFacts.

(** ** The commit hook *)

Module HooksFacts.

Import JsObject Hooks Instances.

Section Objects.

Context {V : Type}.

Lemma own_replace_same (o : Obj V) (k : string) (v old : V) :
  own o k = Some old -> own (replace o k v) k = Some v.
Proof.
  induction o as [| [k0 v0] rest IH]; simpl; intros Hown.
  - discriminate Hown.
  - destruct (String.eqb k0 k) eqn:E; simpl; rewrite E.
    + reflexivity.
    + apply IH, Hown.
Qed.

Lemma own_replace_other (o : Obj V) (k k' : string) (v : V) :
  k <> k' -> own (replace o k v) k' = own o k'.
Proof.
  intros Hne.
  induction o as [| [k0 v0] rest IH]; simpl.
  - reflexivity.
  - destruct (String.eqb_spec k0 k) as [-> | Hk0]; simpl.
    + destruct (String.eqb_spec k k'); [contradiction | reflexivity].
    + rewrite IH. reflexivity.
Qed.

Lemma replace_names (o : Obj V) (k : string) (v : V) :
  map fst (replace o k v) = map fst o.
Proof.
  induction o as [| [k0 v0] rest IH]; simpl.
  - reflexivity.
  - destruct (String.eqb k0 k); simpl; [| rewrite IH]; reflexivity.
Qed.

Lemma own_define_same (o : Obj V) (k : string) (v : V) :
  own o k = None -> own (define o k v) k = Some v.
Proof.
  unfold define.
  induction o as [| [k0 v0] rest IH]; simpl; intros Hown.
  - rewrite String.eqb_refl. reflexivity.
  - destruct (String.eqb k0 k); [discriminate Hown | apply IH, Hown].
Qed.

Lemma own_define_other (o : Obj V) (k k' : string) (v : V) :
  k <> k' -> own (define o k v) k' = own o k'.
Proof.
  intros Hne. unfold define.
  induction o as [| [k0 v0] rest IH]; simpl.
  - destruct (String.eqb_spec k k'); [contradiction | reflexivity].
  - destruct (String.eqb k0 k'); [reflexivity | apply IH].
Qed.

Lemma define_names (o : Obj V) (k : string) (v : V) :
  map fst (define o k v) = map fst o ++ [k].
Proof.
  unfold define. rewrite map_app. reflexivity.
Qed.

Lemma own_None_iff (o : Obj V) (k : string) :
  own o k = None <-> ~ In k (map fst o).
Proof.
  induction o as [| [k0 v0] rest IH]; simpl.
  - tauto.
  - destruct (String.eqb_spec k0 k) as [-> | Hne].
    + split; [discriminate | intros H; exfalso; apply H; left; reflexivity].
    + rewrite IH. tauto.
Qed.

End Objects.

(** *** [Object.keys] lists every own property once *)

Lemma insert_sorted_perm (e : N * string) (l : list (N * string)) :
  Permutation (insert_sorted e l) (e :: l).
Proof.
  induction l as [| x rest IH]; simpl.
  - apply Permutation_refl.
  - destruct (fst e <=? fst x)%N.
    + apply Permutation_refl.
    + apply perm_trans with (x :: e :: rest).
      * apply perm_skip, IH.
      * apply perm_swap.
Qed.

Lemma sort_indices_perm (l : list (N * string)) :
  Permutation (sort_indices l) l.
Proof.
  unfold sort_indices.
  induction l as [| x rest IH]; simpl.
  - apply perm_nil.
  - apply perm_trans with (x :: fold_right insert_sorted [] rest).
    + apply insert_sorted_perm.
    + apply perm_skip, IH.
Qed.

Lemma split_names_perm (names : list string) :
  Permutation
    (map snd (index_keys names) ++ filter (fun k => negb (is_index k)) names)
    names.
Proof.
  induction names as [| k rest IH]; simpl.
  - apply perm_nil.
  - unfold is_index. destruct (array_index k) as [n |]; simpl.
    + apply perm_skip, IH.
    + apply Permutation_sym, Permutation_cons_app, Permutation_sym, IH.
Qed.

Lemma keys_perm {V} (o : Obj V) : Permutation (keys o) (map fst o).
Proof.
  unfold keys.
  apply perm_trans
    with (map snd (index_keys (map fst o))
            ++ filter (fun k => negb (is_index k)) (map fst o)).
  - apply Permutation_app_tail, Permutation_map, sort_indices_perm.
  - apply split_names_perm.
Qed.

(** *** The reducer *)

Lemma NoDup_snoc {A} (l : list A) (x : A) :
  NoDup l -> ~ In x l -> NoDup (l ++ [x]).
Proof.
  intros Hl Hx.
  induction Hl as [| y l Hy Hl IH]; simpl.
  - constructor; [intros [] | constructor].
  - constructor.
    + rewrite in_app_iff. simpl. intros [Hin | [Heq | []]].
      * exact (Hy Hin).
      * apply Hx. left. symmetry. exact Heq.
    + apply IH. intros Hin. apply Hx. right. exact Hin.
Qed.

Lemma updates_of_cons_same (u : UpdateNotification) (rest : list UpdateNotification) :
  updates_of (table u) (u :: rest) = u :: updates_of (table u) rest.
Proof.
  unfold updates_of. simpl. rewrite String.eqb_refl. reflexivity.
Qed.

Lemma updates_of_cons_other (u : UpdateNotification) (rest : list UpdateNotification)
    (t : string) :
  table u <> t -> updates_of t (u :: rest) = updates_of t rest.
Proof.
  intros Hne. unfold updates_of. simpl.
  destruct (String.eqb_spec (table u) t); [contradiction | reflexivity].
Qed.

Lemma reduce_groups (buffer : list UpdateNotification) :
  forall grouping : Obj (list UpdateNotification),
    named_safely buffer ->
    NoDup (map fst grouping) ->
    exists grouped,
      reduce buffer grouping = Normal grouped
      /\ NoDup (map fst grouped)
      /\ forall t, own grouped t = extended (own grouping t) (updates_of t buffer).
Proof.
  induction buffer as [| u rest IH]; intros grouping Hsafe Hnodup.
  - exists grouping. simpl. repeat split; [assumption |].
    intros t. unfold extended. destruct (own grouping t) as [group |].
    + rewrite app_nil_r. reflexivity.
    + reflexivity.
  - assert (Hu : inherited (table u) = false) by (apply Hsafe; left; reflexivity).
    assert (Hrest : named_safely rest)
      by (intros x Hx; apply Hsafe; right; exact Hx).
    cbn [reduce]. unfold group_update, get. rewrite Hu.
    destruct (own grouping (table u)) as [group |] eqn:Hown.
    + destruct (IH (replace grouping (table u) (group ++ [u])) Hrest)
        as (grouped & Hred & Hnd & Hgroups).
      { rewrite replace_names. exact Hnodup. }
      exists grouped. repeat split; [exact Hred | exact Hnd |].
      intros t. rewrite Hgroups.
      destruct (String.eqb_spec (table u) t) as [<- | Hne].
      * rewrite (own_replace_same _ _ _ _ Hown), Hown, updates_of_cons_same.
        simpl. rewrite <- app_assoc. reflexivity.
      * rewrite (own_replace_other _ _ _ _ Hne), (updates_of_cons_other _ _ _ Hne).
        reflexivity.
    + destruct (IH (define grouping (table u) ([] ++ [u])) Hrest)
        as (grouped & Hred & Hnd & Hgroups).
      { rewrite define_names. apply NoDup_snoc; [exact Hnodup |].
        apply own_None_iff, Hown. }
      exists grouped. repeat split; [exact Hred | exact Hnd |].
      intros t. rewrite Hgroups.
      destruct (String.eqb_spec (table u) t) as [<- | Hne].
      * rewrite (own_define_same _ _ _ Hown), Hown, updates_of_cons_same.
        reflexivity.
      * rewrite (own_define_other _ _ _ _ Hne), (updates_of_cons_other _ _ _ Hne).
        reflexivity.
Qed.

(** A table named like an inherited property stops the reducer: the
    value read is neither an array nor falsy, and [push] is missing. *)
Lemma reduce_inherited (buffer : list UpdateNotification) :
  forall grouping : Obj (list UpdateNotification),
    (forall k, In k (map fst grouping) -> inherited k = false) ->
    (exists u, In u buffer /\ inherited (table u) = true) ->
    reduce buffer grouping = Throw push_not_a_function.
Proof.
  induction buffer as [| u rest IH]; intros grouping Hkeys (bad & Hin & Hbad).
  - destruct Hin.
  - cbn [reduce]. unfold group_update, get.
    destruct (inherited (table u)) eqn:Hu.
    + assert (Hown : own grouping (table u) = None).
      { apply own_None_iff. intros Hk. apply Hkeys in Hk. congruence. }
      rewrite Hown. reflexivity.
    + assert (Hrest : exists x, In x rest /\ inherited (table x) = true).
      { destruct Hin as [-> | Hin]; [congruence | exists bad; split; assumption]. }
      destruct (own grouping (table u)) as [group |] eqn:Hown.
      * apply IH; [| exact Hrest].
        rewrite replace_names. exact Hkeys.
      * apply IH; [| exact Hrest].
        rewrite define_names. intros k Hk. apply in_app_or in Hk.
        destruct Hk as [Hk | [<- | []]]; [apply Hkeys, Hk | exact Hu].
Qed.

Lemma updates_of_nonempty (t : string) (buffer : list UpdateNotification) :
  updates_of t buffer <> [] <-> exists u, In u buffer /\ table u = t.
Proof.
  unfold updates_of. split.
  - intros Hne. destruct (filter _ buffer) as [| u rest] eqn:Hf; [congruence |].
    assert (Hu : In u (filter (fun x => String.eqb (table x) t) buffer))
      by (rewrite Hf; left; reflexivity).
    apply filter_In in Hu. destruct Hu as [Hin Heq].
    exists u. split; [exact Hin | apply String.eqb_eq, Heq].
  - intros (u & Hin & Heq) Hnil.
    assert (Hu : In u (filter (fun x => String.eqb (table x) t) buffer)).
    { apply filter_In. split; [exact Hin | apply String.eqb_eq, Heq]. }
    rewrite Hnil in Hu. destruct Hu.
Qed.

(** With an empty buffer the hook returns at once: nobody is notified and
    the buffer stays empty. *)
Lemma commitHook_empty (this : System) :
  updateBuffer this = [] ->
  commitHook this = (Normal tt, this) /\ updateBuffer this = [].
Proof.
  intros Hempty. unfold commitHook. rewrite Hempty. split; reflexivity.
Qed.

(** With a buffer that is not empty and names no inherited property,
    every listener that defines [tablesUpdated] is called once, all with
    the same batch: its [rawUpdates] are the buffer, its [groupedUpdates]
    hold for each table the updates of that table in buffer order, its
    [tables] list each table of the buffer once; and the buffer is empty
    afterwards. *)
Lemma commitHook_notifies (this : System) :
  updateBuffer this <> [] ->
  named_safely (updateBuffer this) ->
  exists batch,
    commitHook this
    = (Normal tt,
       {| updateBuffer := [];
          listeners := listeners this;
          notified :=
            notified this
              ++ map (fun l => (listener_id l, batch))
                   (filter has_tablesUpdated (listeners this)) |})
    /\ rawUpdates batch = updateBuffer this
    /\ (forall t,
          own (groupedUpdates batch) t
          = match updates_of t (updateBuffer this) with
            | [] => None
            | group => Some group
            end)
    /\ NoDup (tables batch)
    /\ (forall t, In t (tables batch) <-> exists u, In u (updateBuffer this) /\ table u = t).
Proof.
  intros Hne Hsafe.
  destruct (reduce_groups (updateBuffer this) empty Hsafe (NoDup_nil _))
    as (grouped & Hred & Hnd & Hgroups).
  assert (Hown : forall t,
             own grouped t
             = match updates_of t (updateBuffer this) with
               | [] => None
               | group => Some group
               end).
  { intros t. rewrite Hgroups. simpl.
    destruct (updates_of t (updateBuffer this)); reflexivity. }
  exists {| groupedUpdates := grouped;
            rawUpdates := updateBuffer this;
            tables := keys grouped |}.
  split; [| split; [| split; [| split]]].
  - unfold commitHook.
    destruct (updateBuffer this) as [| u rest] eqn:Hbuf; [congruence |].
    cbn [List.length Nat.eqb]. unfold bind, lift. rewrite Hred. reflexivity.
  - reflexivity.
  - exact Hown.
  - simpl. apply (Permutation_NoDup (Permutation_sym (keys_perm grouped))), Hnd.
  - intros t. simpl. rewrite <- updates_of_nonempty.
    split.
    + intros Hin Hnil.
      apply (Permutation_in _ (keys_perm grouped)) in Hin.
      assert (Hnone : own grouped t = None) by (rewrite Hown, Hnil; reflexivity).
      apply own_None_iff in Hnone. exact (Hnone Hin).
    + intros Hsome.
      apply (Permutation_in _ (Permutation_sym (keys_perm grouped))).
      destruct (in_dec string_dec t (map fst grouped)) as [Hin | Hout];
        [exact Hin |].
      apply own_None_iff in Hout. rewrite Hown in Hout.
      destruct (updates_of t (updateBuffer this)); [congruence | discriminate].
Qed.

(** When an update of the buffer concerns a table named like an inherited
    property, the hook throws: the buffer is kept and nobody is
    notified. *)
Lemma commitHook_inherited (this : System) :
  (exists u, In u (updateBuffer this) /\ inherited (table u) = true) ->
  commitHook this = (Throw push_not_a_function, this).
Proof.
  intros Hbad. unfold commitHook.
  destruct (updateBuffer this) as [| u rest] eqn:Hbuf.
  - destruct Hbad as (x & [] & _).
  - cbn [List.length Nat.eqb]. unfold bind, lift.
    rewrite (reduce_inherited (u :: rest) empty); [reflexivity | | exact Hbad].
    intros k [].
Qed.

(** A run of [commitHook_notifies] on inserts into [lists] and [todos]. *)
Lemma commitHook_notifies_run :
  exists batch,
    commitHook (system_with two_tables_buffer)
    = (Normal tt,
       {| updateBuffer := []; listeners := listening; notified := [(0, batch)] |})
    /\ rawUpdates batch = two_tables_buffer
    /\ groupedUpdates batch
       = [ ("lists", [inserted "lists" 1; inserted "lists" 2]);
           ("todos", [inserted "todos" 1]) ]
    /\ tables batch = ["lists"; "todos"].
Proof.
  eexists. split; [vm_compute; reflexivity |].
  split; [| split]; reflexivity.
Qed.

(** C9 does not hold of the code.  One buffered insert into a table named
    [constructor]: the hook throws a [TypeError], the listener that defines
    [tablesUpdated] is not called, and the buffer still holds the
    update. *)
Theorem commitHook_constructor_table :
  commitHook (system_with constructor_buffer)
  = (Throw push_not_a_function, system_with constructor_buffer)
  /\ updateBuffer (snd (commitHook (system_with constructor_buffer))) = constructor_buffer
  /\ notified (snd (commitHook (system_with constructor_buffer))) = [].
Proof.
  repeat split.
Qed.

End HooksFacts.

(** ** The harness *)

Module HarnessFacts.

Import Harness Instances.

Section Locking.

Variables (Database Random : Type).
Variable draw_uuid : Random -> string * Random.
Variable toLowerCase : string -> string.
Variable powersync_execute : string -> list string -> Database -> Completion unit * Database.
Variable separate_executeSync : string -> Database -> Completion unit * Database.

Local Abbreviation World := (Harness.World Database Random).
Local Abbreviation locking_attempt :=
  (Harness.locking_attempt Database Random draw_uuid powersync_execute separate_executeSync).
Local Abbreviation runLockingTest :=
  (Harness.runLockingTest Database Random draw_uuid toLowerCase
     powersync_execute separate_executeSync).
Local Abbreviation lock_detected := (Harness.lock_detected toLowerCase).
Local Abbreviation locking_result := (Harness.locking_result toLowerCase).

Lemma lock_detected_true (lockError : option string) :
  lock_detected lockError = true
  <-> exists message,
        lockError = Some message
        /\ message <> ""
        /\ includes (toLowerCase message) "lock" = true.
Proof.
  unfold Harness.lock_detected. destruct lockError as [message |].
  - rewrite andb_true_iff, negb_true_iff, String.eqb_neq. split.
    + intros [Hne Hinc]. exists message. auto.
    + intros (m & Heq & Hne & Hinc). injection Heq as <-. auto.
  - split; [discriminate | intros (m & Heq & _); discriminate].
Qed.

(** The [finally] block never throws: the completion of the guarded
    block stands. *)
Lemma finally_rollback {T} (body : M World T) (w w1 : World) (c : Completion T) :
  body w = (c, w1) ->
  exists w',
    try_finally body
      (try_catch (on_database Database Random (separate_executeSync "ROLLBACK"))
         (fun _ => ret tt)) w
    = (c, w').
Proof.
  intros Hbody. unfold try_finally, try_catch, on_database, ret. rewrite Hbody.
  destruct (separate_executeSync "ROLLBACK" (database w1)) as [[[] | e] d];
    eexists; reflexivity.
Qed.

(** What the [try] block catches, by cases on the two guarded calls. *)
Lemma locking_attempt_cases (w : World) :
  let lockTestId := fst (draw_uuid (random w)) in
  let owner := fst (draw_uuid (snd (draw_uuid (random w)))) in
  let insert := powersync_execute insert_list [lockTestId; "Locked insert"; owner] in
  exists lockError w',
    locking_attempt w = (Normal lockError, w')
    /\ match separate_executeSync "BEGIN IMMEDIATE TRANSACTION" (database w) with
       | (Throw err, _) => lockError = Some (message_or_string err)
       | (Normal _, d1) =>
           match insert d1 with
           | (Throw err, _) => lockError = Some (message_or_string err)
           | (Normal _, _) => lockError = None
           end
       end.
Proof.
  cbv zeta.
  unfold Harness.locking_attempt. unfold bind at 1. unfold uuid at 1.
  destruct (draw_uuid (random w)) as [lockTestId r1]. cbn [fst snd].
  match goal with
  | |- context [try_finally ?b _ ?w0] =>
      assert (Hbody : exists lockError w1,
                 b w0 = (Normal lockError, w1)
                 /\ match separate_executeSync "BEGIN IMMEDIATE TRANSACTION" (database w) with
                    | (Throw err, _) => lockError = Some (message_or_string err)
                    | (Normal _, d1) =>
                        match powersync_execute insert_list
                                [lockTestId; "Locked insert"; fst (draw_uuid r1)] d1 with
                        | (Throw err, _) => lockError = Some (message_or_string err)
                        | (Normal _, _) => lockError = None
                        end
                    end)
  end.
  { unfold try_catch, bind, on_database, uuid, ret. cbn [database random].
    destruct (separate_executeSync "BEGIN IMMEDIATE TRANSACTION" (database w))
      as [[[] | err] d1]; cbn [database random].
    - destruct (draw_uuid r1) as [owner r2]. cbn [database random fst snd].
      destruct (powersync_execute insert_list [lockTestId; "Locked insert"; owner] d1)
        as [[[] | err] d2]; eexists; eexists; split; reflexivity.
    - eexists; eexists; split; reflexivity. }
  destruct Hbody as (lockError & w1 & Hbody & Hcases).
  destruct (finally_rollback _ _ _ _ Hbody) as (w' & Hfinally).
  exists lockError, w'. split; [exact Hfinally | exact Hcases].
Qed.

(** C4 (as amended).  [runLockingTest] always returns a result.  Its
    [passed] is [true] exactly when the [try] block caught an error, thrown
    either by [BEGIN IMMEDIATE TRANSACTION] on the separate connection or
    by the insert through the managed connection, whose text (the
    [message] of an [Error], the string conversion of any other value) is
    not empty and, lowercased, contains [lock]; and its [error] is
    [undefined] exactly when [passed] is [true]. *)
Theorem locking_test_verdict (w : World) :
  let lockTestId := fst (draw_uuid (random w)) in
  let owner := fst (draw_uuid (snd (draw_uuid (random w)))) in
  let begin := separate_executeSync "BEGIN IMMEDIATE TRANSACTION" (database w) in
  let insert := powersync_execute insert_list [lockTestId; "Locked insert"; owner] in
  let caught err :=
    fst begin = Throw err
    \/ (fst begin = Normal tt /\ fst (insert (snd begin)) = Throw err) in
  exists r w',
    runLockingTest w = (Normal r, w')
    /\ (passed r = true
        <-> exists err,
              caught err
              /\ message_or_string err <> ""
              /\ includes (toLowerCase (message_or_string err)) "lock" = true)
    /\ (error r = None <-> passed r = true).
Proof.
  cbv zeta.
  destruct (locking_attempt_cases w) as (lockError & w' & Hrun & Hcases).
  cbv zeta in Hcases.
  exists (locking_result lockError), w'.
  split; [| split].
  - unfold Harness.runLockingTest, bind. rewrite Hrun. reflexivity.
  - cbn [passed Harness.locking_result]. rewrite lock_detected_true.
    destruct (separate_executeSync "BEGIN IMMEDIATE TRANSACTION" (database w))
      as [[[] | err] d1]; cbn [fst snd] in *.
    + destruct (powersync_execute insert_list _ d1) as [[[] | err] d2];
        cbn [fst snd] in *; subst lockError.
      * split.
        -- intros (m & Heq & _). discriminate Heq.
        -- intros (e & [He | [_ He]] & _); discriminate He.
      * split.
        -- intros (m & Heq & Hne & Hinc). injection Heq as <-.
           exists err. split; [right; split; reflexivity | split; assumption].
        -- intros (e & [He | [_ He]] & Hne & Hinc); [discriminate He |].
           injection He as <-. eexists. split; [reflexivity | split; assumption].
    + subst lockError. split.
      * intros (m & Heq & Hne & Hinc). injection Heq as <-.
        exists err. split; [left; reflexivity | split; assumption].
      * intros (e & [He | [He _]] & Hne & Hinc); [| discriminate He].
        injection He as <-. eexists. split; [reflexivity | split; assumption].
  - cbn [passed error Harness.locking_result].
    destruct (lock_detected lockError); split; intros H;
      try reflexivity; discriminate H.
Qed.

End Locking.

Section Hooked.

Variables (Database Random : Type).
Variable draw_uuid : Random -> string * Random.
Variable powersync_execute : string -> list string -> Database -> Completion unit * Database.
Variable powersync_getAll : string -> list string -> Database -> Completion (list Row) * Database.
Variable promise_all : list Write -> Database -> Completion unit * Database.

Local Abbreviation World := (Harness.World Database Random).
Local Abbreviation uuid := (Harness.uuid Database Random draw_uuid).
Local Abbreviation uuids := (Harness.uuids Database Random draw_uuid).
Local Abbreviation start_powersync_writes :=
  (Harness.start_powersync_writes Database Random draw_uuid).
Local Abbreviation runHookedConnectionSimultaneousWrites :=
  (Harness.runHookedConnectionSimultaneousWrites Database Random draw_uuid
     powersync_execute powersync_getAll promise_all).

Lemma uuids_length (n : nat) :
  forall (w w' : World) (l : list string),
    uuids n w = (Normal l, w') -> List.length l = n.
Proof.
  induction n as [| n IH]; intros w w' l Hrun; simpl in Hrun.
  - unfold ret in Hrun. injection Hrun as <- _. reflexivity.
  - unfold bind, Harness.uuid in Hrun.
    destruct (draw_uuid (random w)) as [first r].
    destruct (Harness.uuids Database Random draw_uuid n _) as [[others | e] w1] eqn:Hrest;
      [| discriminate Hrun].
    unfold ret in Hrun. injection Hrun as <- _.
    simpl. f_equal. exact (IH _ _ _ Hrest).
Qed.

Lemma has_drizzle_item_true (queryResults : list Row) (drizzleId : string) :
  has_drizzle_item queryResults drizzleId = true
  <-> exists row,
        In row queryResults /\ id row = drizzleId /\ name row = Some hooked_name.
Proof.
  unfold has_drizzle_item. rewrite existsb_exists. split.
  - intros (row & Hin & Hrow). apply andb_true_iff in Hrow. destruct Hrow as [Hid Hname].
    exists row. split; [exact Hin | split].
    + apply String.eqb_eq, Hid.
    + destruct (name row) as [n |]; [| discriminate Hname].
      apply String.eqb_eq in Hname. rewrite Hname. reflexivity.
  - intros (row & Hin & Hid & Hname). exists row. split; [exact Hin |].
    rewrite Hid, Hname, !String.eqb_refl. reflexivity.
Qed.

Lemma includes_id (i : string) (ids : list string) :
  existsb (String.eqb i) ids = true <-> In i ids.
Proof.
  rewrite existsb_exists. split.
  - intros (x & Hin & Heq). apply String.eqb_eq in Heq. rewrite Heq. exact Hin.
  - intros Hin. exists i. split; [exact Hin | apply String.eqb_refl].
Qed.

(** The identifiers of the rows that the count retains. *)
Lemma counted_ids (queryResults : list Row) (powersyncIds : list string) :
  map id (filter (fun r => existsb (String.eqb (id r)) powersyncIds) queryResults)
  = filter (fun i => existsb (String.eqb i) powersyncIds) (map id queryResults).
Proof.
  induction queryResults as [| r rest IH]; simpl.
  - reflexivity.
  - destruct (existsb (String.eqb (id r)) powersyncIds); simpl; rewrite IH; reflexivity.
Qed.

(** Among rows with pairwise distinct identifiers, as many rows carry an
    identifier of the sync engine as there are such identifiers exactly
    when each of them is carried by a row. *)
Lemma count_all_present (queryResults : list Row) (powersyncIds : list string) :
  NoDup (map id queryResults) ->
  NoDup powersyncIds ->
  powersync_items_count queryResults powersyncIds = List.length powersyncIds
  <-> forall i, In i powersyncIds -> exists row, In row queryResults /\ id row = i.
Proof.
  intros Hrows Hids.
  unfold powersync_items_count.
  rewrite <- (length_map id), counted_ids.
  set (kept := filter (fun i => existsb (String.eqb i) powersyncIds) (map id queryResults)).
  assert (Hkept : NoDup kept) by (apply NoDup_filter, Hrows).
  assert (Hsub : incl kept powersyncIds).
  { intros i Hi. apply filter_In in Hi. apply includes_id, Hi. }
  split.
  - intros Hlen i Hi.
    assert (Hback : incl powersyncIds kept).
    { apply NoDup_length_incl; [exact Hkept | rewrite Hlen; apply le_n | exact Hsub]. }
    apply Hback in Hi. apply filter_In in Hi. destruct Hi as [Hi _].
    apply in_map_iff in Hi. destruct Hi as (row & Hid & Hin).
    exists row. split; assumption.
  - intros Hall.
    assert (Hback : incl powersyncIds kept).
    { intros i Hi. apply filter_In. split.
      - destruct (Hall i Hi) as (row & Hin & Hid). rewrite <- Hid.
        apply in_map, Hin.
      - apply includes_id, Hi. }
    apply Nat.le_antisymm.
    + apply NoDup_incl_length; assumption.
    + apply NoDup_incl_length; assumption.
Qed.

(** The verdict on the rows of the final [SELECT]. *)
Lemma hooked_passed_true (queryResults : list Row) (drizzleId : string)
    (powersyncIds : list string) :
  hooked_passed queryResults drizzleId powersyncIds = true
  <-> List.length queryResults = List.length powersyncIds + 1
      /\ (exists row,
            In row queryResults /\ id row = drizzleId /\ name row = Some hooked_name)
      /\ powersync_items_count queryResults powersyncIds = List.length powersyncIds.
Proof.
  unfold hooked_passed.
  rewrite !andb_true_iff, !Nat.eqb_eq, has_drizzle_item_true. tauto.
Qed.

(** C5.  When the writes complete and the final [SELECT] returns rows
    with pairwise distinct identifiers ([id] is the primary key of
    [lists]), and the identifiers drawn for the sync engine are pairwise
    distinct,
    [runHookedConnectionSimultaneousWrites] returns a result whose [passed]
    is [true] exactly when the [SELECT] returned
    [POWER_SYNC_WRITE_COUNT + 1] rows, one of them carries the identifier
    drawn for the adapter together with the name it was inserted with, and
    each of the [POWER_SYNC_WRITE_COUNT] identifiers drawn for the sync
    engine is carried by a row. *)
Theorem hooked_writes_verdict (w w2 w3 w4 w5 : World) (d1 d6 d7 : Database)
    (drizzleId owner : string) (powersyncIds : list string) (writes : list Write)
    (queryResults : list Row) :
  powersync_execute "DELETE FROM lists" [] (database w) = (Normal tt, d1) ->
  uuid {| database := d1; random := random w |} = (Normal drizzleId, w2) ->
  uuids POWER_SYNC_WRITE_COUNT w2 = (Normal powersyncIds, w3) ->
  start_powersync_writes powersyncIds w3 = (Normal writes, w4) ->
  uuid w4 = (Normal owner, w5) ->
  promise_all
    (writes ++ [DrizzleInsert {| id := drizzleId; name := Some hooked_name;
                                 owner_id := Some owner |}])
    (database w5)
  = (Normal tt, d6) ->
  powersync_getAll "SELECT * FROM lists ORDER BY name" [] d6 = (Normal queryResults, d7) ->
  NoDup (map id queryResults) ->
  NoDup powersyncIds ->
  exists r,
    runHookedConnectionSimultaneousWrites w
    = (Normal r, {| database := d7; random := random w5 |})
    /\ (passed r = true
        <-> List.length queryResults = POWER_SYNC_WRITE_COUNT + 1
            /\ (exists row,
                  In row queryResults /\ id row = drizzleId
                  /\ name row = Some hooked_name)
            /\ (forall i, In i powersyncIds ->
                          exists row, In row queryResults /\ id row = i)).
Proof.
  intros Hdelete Hdrizzle Hids Hwrites Howner Hall Hselect Hrows Hdistinct.
  eexists. split.
  - unfold Harness.runHookedConnectionSimultaneousWrites, bind.
    unfold on_database at 1. rewrite Hdelete, Hdrizzle, Hids, Hwrites, Howner.
    unfold on_database at 1. rewrite Hall.
    unfold on_database at 1. cbn [database random]. rewrite Hselect.
    unfold ret. reflexivity.
  - cbn [passed]. rewrite hooked_passed_true.
    rewrite (count_all_present _ _ Hrows Hdistinct).
    rewrite (uuids_length _ _ _ _ Hids). tauto.
Qed.

End Hooked.

Section Tombstone.

Variables (Database Random : Type).
Variable draw_uuid : Random -> string * Random.
Variable powersync_execute : string -> list string -> Database -> Completion unit * Database.
Variable powersync_getAll : string -> list string -> Database -> Completion (list Row) * Database.
Variable drizzle_insert : Row -> Database -> Completion unit * Database.

(** How many rows of [lists] carry a given identifier. *)
Variable count : Database -> string -> nat.

(** What the statements of the scenario do to that number: [DELETE]
    removes the rows it selects, an [INSERT] that succeeds adds one row, a
    statement that fails changes nothing, and [SELECT ... WHERE id = ?]
    returns the rows that carry the identifier. *)
Hypothesis delete_all :
  forall d d', powersync_execute "DELETE FROM lists" [] d = (Normal tt, d') ->
               forall i, count d' i = 0.
Hypothesis insert_one :
  forall i n o d d', powersync_execute insert_list [i; n; o] d = (Normal tt, d') ->
                     count d' i = S (count d i).
Hypothesis delete_one :
  forall i d d', powersync_execute delete_by_id [i] d = (Normal tt, d') ->
                 count d' i = 0.
Hypothesis adapter_insert_one :
  forall r d d', drizzle_insert r d = (Normal tt, d') ->
                 count d' (id r) = S (count d (id r)).
Hypothesis execute_failed :
  forall statement parameters d d' e,
    powersync_execute statement parameters d = (Throw e, d') ->
    forall i, count d' i = count d i.
Hypothesis adapter_insert_failed :
  forall r d d' e, drizzle_insert r d = (Throw e, d') ->
                   forall i, count d' i = count d i.
Hypothesis select_one :
  forall i d d' rows, powersync_getAll select_by_id [i] d = (Normal rows, d') ->
                      List.length rows = count d i.

Local Abbreviation World := (Harness.World Database Random).
Local Abbreviation delete_or_insert :=
  (Harness.delete_or_insert Database Random powersync_execute drizzle_insert).
Local Abbreviation tombstone_cycles :=
  (Harness.tombstone_cycles Database Random draw_uuid powersync_execute drizzle_insert).
Local Abbreviation runDeleteAndInsertSameId :=
  (Harness.runDeleteAndInsertSameId Database Random draw_uuid
     powersync_execute powersync_getAll drizzle_insert).

Lemma remainder_even (i : nat) : Nat.eqb (i mod 2) 0 = Nat.even i.
Proof.
  destruct (Nat.Even_or_Odd i) as [[k ->] | [k ->]].
  - rewrite Nat.mul_comm, Nat.Div0.mod_mul, Nat.mul_comm.
    rewrite Nat.even_mul. reflexivity.
  - replace (2 * k + 1) with (1 + k * 2) by lia.
    rewrite Nat.Div0.mod_add.
    replace (1 + k * 2) with (1 + 2 * k) by lia.
    rewrite Nat.even_add_mul_2. reflexivity.
Qed.

(** The loop, entered before iteration [first]: at most one row carries
    the identifier, and none does when the iteration ahead is an insert.
    This holds again wherever the loop stops. *)
Lemma cycles_keep_one (testId ownerId : string) (n : nat) :
  forall (first : nat) (w : World),
    count (database w) testId <= 1 ->
    (Nat.even first = false -> count (database w) testId = 0) ->
    let after := for_each (seq first n) (delete_or_insert testId ownerId) w in
    count (database (snd after)) testId <= 1
    /\ (fst after = Normal tt ->
        Nat.even (first + n) = false -> count (database (snd after)) testId = 0).
Proof.
  induction n as [| n IH]; intros first w Hone Hodd; cbv zeta.
  - simpl. rewrite Nat.add_0_r. split; [exact Hone | intros _; exact Hodd].
  - cbn [seq for_each]. unfold bind.
    assert (Hbody : delete_or_insert testId ownerId first w
                    = if Nat.even first
                      then on_database Database Random
                             (powersync_execute delete_by_id [testId]) w
                      else on_database Database Random
                             (drizzle_insert
                                {| id := testId;
                                   name := Some ("Reinserted " ++ decimal first)%string;
                                   owner_id := Some ownerId |}) w).
    { unfold Harness.delete_or_insert. rewrite remainder_even.
      destruct (Nat.even first); reflexivity. }
    rewrite Hbody. clear Hbody. unfold on_database.
    destruct (Nat.even first) eqn:Hparity.
    + destruct (powersync_execute delete_by_id [testId] (database w))
        as [[[] | e] d1] eqn:Hstep.
      * specialize (IH (S first) {| database := d1; random := random w |}).
        cbv zeta in IH. cbn [database] in IH.
        rewrite (delete_one _ _ _ Hstep) in IH.
        rewrite <- Nat.add_succ_comm. apply IH; [lia | intros _; reflexivity].
      * cbn [fst snd database]. rewrite (execute_failed _ _ _ _ _ Hstep).
        split; [exact Hone | discriminate].
    + destruct (drizzle_insert _ (database w)) as [[[] | e] d1] eqn:Hstep.
      * specialize (IH (S first) {| database := d1; random := random w |}).
        cbv zeta in IH. cbn [database] in IH.
        pose proof (adapter_insert_one _ _ _ Hstep) as Hcount. cbn [id] in Hcount.
        rewrite Hcount, (Hodd eq_refl) in IH.
        rewrite <- Nat.add_succ_comm. apply IH; [lia |].
        rewrite Nat.even_succ, <- Nat.negb_even, Hparity. discriminate.
      * cbn [fst snd database]. rewrite (adapter_insert_failed _ _ _ _ Hstep).
        split; [exact Hone | discriminate].
Qed.

(** The scenario stopped after any number of iterations. *)
Lemma tombstone_prefix (w w' : World) (d0 : Database) (n : nat)
    (c : Completion (string * string)) :
  powersync_execute "DELETE FROM lists" [] (database w) = (Normal tt, d0) ->
  tombstone_cycles n w = (c, w') ->
  let testId := fst (draw_uuid (random w)) in
  count (database w') testId <= 1
  /\ forall ids, c = Normal ids -> fst ids = testId.
Proof.
  intros Hclear Hrun. cbv zeta.
  unfold Harness.tombstone_cycles, bind, on_database, uuid in Hrun.
  rewrite Hclear in Hrun. cbn [database random] in Hrun. revert Hrun.
  destruct (draw_uuid (random w)) as [testId r1]. cbn [database random fst].
  destruct (draw_uuid r1) as [ownerId r2]. cbn [database random].
  pose proof (delete_all _ _ Hclear testId) as Hzero.
  destruct (powersync_execute insert_list [testId; "Initial"; ownerId] d0)
    as [[[] | e] d1] eqn:Hinsert.
  - pose proof (cycles_keep_one testId ownerId n 0
                  {| database := d1; random := r2 |}) as Hloop.
    cbv zeta in Hloop. cbn [database] in Hloop.
    rewrite (insert_one _ _ _ _ _ Hinsert), Hzero in Hloop.
    destruct Hloop as [Hone _]; [lia | discriminate |].
    destruct (for_each (seq 0 n) _ _) as [[[] | e] w2]; cbn [fst snd] in Hone;
      unfold ret; intros Hrun; injection Hrun as <- <-.
    + split; [exact Hone |]. intros ids Heq. injection Heq as <-. reflexivity.
    + split; [exact Hone | discriminate].
  - intros Hrun. injection Hrun as <- <-. cbn [database].
    rewrite (execute_failed _ _ _ _ _ Hinsert), Hzero.
    split; [lia | discriminate].
Qed.

(** C6.  Once the table has been cleared, the scenario of
    [runDeleteAndInsertSameId] (the initial insert, then delete on even and
    insert on odd iterations) leaves at most one row with the identifier
    after any number of iterations, wherever it stops; the final query
    for the identifier returns at most one row, and the test passes. *)
Theorem tombstone_at_most_one_row (w : World) (d0 : Database) :
  powersync_execute "DELETE FROM lists" [] (database w) = (Normal tt, d0) ->
  let testId := fst (draw_uuid (random w)) in
  (forall n, count (database (snd (tombstone_cycles n w))) testId <= 1)
  /\ (forall ids w1 rows d2,
        tombstone_cycles 10 w = (Normal ids, w1) ->
        powersync_getAll select_by_id [fst ids] (database w1) = (Normal rows, d2) ->
        fst ids = testId
        /\ List.length rows <= 1
        /\ exists r,
             runDeleteAndInsertSameId w
             = (Normal r, {| database := d2; random := random w1 |})
             /\ passed r = true
             /\ error r = None).
Proof.
  intros Hclear. cbv zeta. split.
  - intros n.
    destruct (tombstone_cycles n w) as [c w'] eqn:Hrun.
    apply (tombstone_prefix w w' d0 n c Hclear Hrun).
  - intros ids w1 rows d2 Hcycles Hselect.
    destruct (tombstone_prefix w w1 d0 10 _ Hclear Hcycles) as [Hone Hid].
    specialize (Hid _ eq_refl).
    assert (Hrows : List.length rows <= 1).
    { rewrite (select_one _ _ _ _ Hselect), Hid. exact Hone. }
    split; [exact Hid | split; [exact Hrows |]].
    eexists. split.
    + unfold Harness.runDeleteAndInsertSameId, bind. rewrite Hcycles.
      unfold on_database. rewrite Hselect. unfold ret. reflexivity.
    + cbn [passed error].
      apply Nat.leb_le in Hrows. rewrite Hrows. split; reflexivity.
Qed.

End Tombstone.

(** C4 fails as stated.  [BEGIN IMMEDIATE TRANSACTION] on the separate
    connection is itself answered with "database is locked": the test
    passes although no write was issued through the managed connection,
    let alone failed (the table is untouched and a single identifier was
    drawn). *)
Lemma locking_test_passes_without_write :
  runLockingTest (list Row) nat counter_uuid ascii_toLowerCase
    table_execute separate_busy start
  = (Normal {| test_name := "Separate write connection blocks PowerSync write";
               passed := true;
               error := None |},
     {| database := []; random := 1 |})
  /\ fst (table_execute insert_list ["uuid-0"; "Locked insert"; "uuid-1"] [])
     = Normal tt.
Proof.
  split; vm_compute; reflexivity.
Qed.

(** *** The table model obeys the assumptions on the database *)

Lemma rows_with_id_app (t1 t2 : list Row) (i : string) :
  rows_with_id (t1 ++ t2) i = rows_with_id t1 i ++ rows_with_id t2 i.
Proof.
  unfold rows_with_id. apply filter_app.
Qed.

Lemma rows_with_id_deleted (table : list Row) (i : string) :
  rows_with_id (filter (fun r => negb (String.eqb (id r) i)) table) i = [].
Proof.
  unfold rows_with_id.
  induction table as [| r rest IH]; simpl.
  - reflexivity.
  - destruct (String.eqb (id r) i) eqn:E; simpl; [| rewrite E]; exact IH.
Qed.

Lemma table_insert_count (r : Row) (table table' : list Row) :
  table_insert r table = (Normal tt, table') ->
  table_count table' (id r) = S (table_count table (id r)).
Proof.
  unfold table_insert, table_count.
  destruct (rows_with_id table (id r)) as [| x rest] eqn:Hfree; intros Hrun;
    [| discriminate Hrun].
  injection Hrun as <-.
  rewrite rows_with_id_app, Hfree. unfold rows_with_id. simpl.
  rewrite String.eqb_refl. reflexivity.
Qed.

Lemma table_insert_refused (r : Row) (table table' : list Row) (e : Thrown) :
  table_insert r table = (Throw e, table') ->
  forall i, table_count table' i = table_count table i.
Proof.
  unfold table_insert.
  destruct (rows_with_id table (id r)); intros Hrun; [discriminate Hrun |].
  injection Hrun as _ <-. reflexivity.
Qed.

Lemma table_delete_all (table table' : list Row) :
  table_execute "DELETE FROM lists" [] table = (Normal tt, table') ->
  forall i, table_count table' i = 0.
Proof.
  intros Hrun. vm_compute in Hrun. injection Hrun as <-. reflexivity.
Qed.

Lemma table_execute_insert (i n o : string) (table : list Row) :
  table_execute insert_list [i; n; o] table
  = table_insert {| id := i; name := Some n; owner_id := Some o |} table.
Proof.
  reflexivity.
Qed.

Lemma table_execute_delete (i : string) (table : list Row) :
  table_execute delete_by_id [i] table
  = (Normal tt, filter (fun r => negb (String.eqb (id r) i)) table).
Proof.
  reflexivity.
Qed.

Lemma table_insert_one (i n o : string) (table table' : list Row) :
  table_execute insert_list [i; n; o] table = (Normal tt, table') ->
  table_count table' i = S (table_count table i).
Proof.
  rewrite table_execute_insert. intros Hrun.
  exact (table_insert_count _ _ _ Hrun).
Qed.

Lemma table_delete_one (i : string) (table table' : list Row) :
  table_execute delete_by_id [i] table = (Normal tt, table') ->
  table_count table' i = 0.
Proof.
  rewrite table_execute_delete. intros Hrun. injection Hrun as <-.
  unfold table_count. rewrite rows_with_id_deleted. reflexivity.
Qed.

Lemma table_execute_refused (statement : string) (parameters : list string)
    (table table' : list Row) (e : Thrown) :
  table_execute statement parameters table = (Throw e, table') ->
  forall i, table_count table' i = table_count table i.
Proof.
  unfold table_execute.
  destruct (String.eqb statement "DELETE FROM lists"); [discriminate |].
  destruct (String.eqb statement insert_list).
  - destruct parameters as [| i [| n [| o [| extra rest]]]]; intros Hrun;
      try (injection Hrun as _ <-; reflexivity).
    exact (table_insert_refused _ _ _ _ Hrun).
  - destruct (String.eqb statement delete_by_id).
    + destruct parameters as [| i [| extra rest]]; intros Hrun;
        try discriminate Hrun; injection Hrun as _ <-; reflexivity.
    + intros Hrun. injection Hrun as _ <-. reflexivity.
Qed.

Lemma table_select_one (i : string) (table table' : list Row) (rows : list Row) :
  table_getAll select_by_id [i] table = (Normal rows, table') ->
  List.length rows = table_count table i.
Proof.
  change (table_getAll select_by_id [i] table) with (Normal (rows_with_id table i), table).
  intros Hrun. injection Hrun as <- _. reflexivity.
Qed.

Lemma distinct_by_computation (l : list string) :
  nodup string_dec l = l -> NoDup l.
Proof.
  intros <-. apply NoDup_nodup.
Qed.

(** *** Runs on the table model *)

(** A run of [hooked_writes_verdict]: on the table model all hundred and
    one inserts arrive and the test passes. *)
Lemma hooked_writes_verdict_witness :
  exists r w',
    runHookedConnectionSimultaneousWrites (list Row) nat counter_uuid
      table_execute table_getAll table_all start
    = (Normal r, w')
    /\ passed r = true.
Proof.
  destruct (hooked_writes_verdict (list Row) nat counter_uuid
              table_execute table_getAll table_all start
              {| database := []; random := 1 |}
              {| database := []; random := 101 |}
              {| database := []; random := 201 |}
              {| database := []; random := 202 |}
              [] hooked_table hooked_table "uuid-0" "uuid-201"
              hooked_ids hooked_writes hooked_rows)
    as (r & Hrun & _).
  - vm_compute. reflexivity.
  - vm_compute. reflexivity.
  - vm_compute. reflexivity.
  - vm_compute. reflexivity.
  - vm_compute. reflexivity.
  - vm_compute. reflexivity.
  - vm_compute. reflexivity.
  - apply distinct_by_computation. vm_compute. reflexivity.
  - apply distinct_by_computation. vm_compute. reflexivity.
  - exists r. eexists. split; [exact Hrun |].
    vm_compute in Hrun. injection Hrun as <-. reflexivity.
Defined.

(** A run of [tombstone_at_most_one_row] on the table model: the row
    inserted by the last iteration is the only one left. *)
Lemma tombstone_at_most_one_row_witness :
  exists r w',
    runDeleteAndInsertSameId (list Row) nat counter_uuid
      table_execute table_getAll table_insert start
    = (Normal r, w')
    /\ passed r = true
    /\ table_count (database w') "uuid-0" = 1.
Proof.
  destruct (tombstone_at_most_one_row (list Row) nat counter_uuid
              table_execute table_getAll table_insert table_count
              table_delete_all table_insert_one table_delete_one
              table_insert_count table_execute_refused table_insert_refused
              table_select_one start [])
    as [_ Hfinal].
  - vm_compute. reflexivity.
  - pose (row := {| id := "uuid-0"; name := Some "Reinserted 9";
                    owner_id := Some "uuid-1" |}).
    destruct (Hfinal ("uuid-0", "uuid-1") {| database := [row]; random := 2 |}
                [row] [row])
      as (_ & _ & r & Hrun & Hpassed & _).
    + vm_compute. reflexivity.
    + vm_compute. reflexivity.
    + exists r. eexists. split; [exact Hrun |]. split; [exact Hpassed |].
      vm_compute. reflexivity.
Defined.

End HarnessFacts.

(** ** More on the transaction wrapper *)

Module AdapterExtra.

Import Adapter Instances MoreInstances.

Section Session.

Variables (DB Store Dialect Schema Logger : Type).
Variable NoopLogger : Logger.
Variable prepared_run : DB -> Dialect -> Logger -> SQL -> Store -> Completion unit * Store.

Local Abbreviation World := (Adapter.World DB Store Dialect Schema Logger).
Local Abbreviation Session := (OPSQLiteSession DB Dialect Schema Logger).
Local Abbreviation Transaction := (OPSQLiteTransaction DB Dialect Schema Logger).
Local Abbreviation transaction := (OPSQLiteSession_transaction NoopLogger prepared_run).
Local Abbreviation run := (Adapter.run prepared_run).
Local Abbreviation new_tx := (Adapter.new_tx NoopLogger).
Local Abbreviation run_trace :=
  (AdapterFacts.run_trace DB Store Dialect Schema Logger prepared_run).

Lemma run_accepted_trace (this : OPSQLiteBaseSession DB Dialect Schema Logger)
    (q : SQL) (w w' : World) (c : Completion unit) :
  run this q w = (c, w') -> trace w' = trace w ++ [Executed (db this) q].
Proof.
  intros Hrun. pose proof (run_trace this q w) as Ht. rewrite Hrun in Ht. exact Ht.
Qed.

(** X1.  When the driver refuses the opening statement,
    [OPSQLiteSession.transaction] throws the error of that run at once: the
    callback is not entered and neither [commit] nor [rollback] is run;
    the opening statement is the only thing handed to the connection. *)
Theorem begin_refused_skips_callback {T} (this : Session) (f : Transaction -> M World T)
    (config : OPSQLiteTransactionConfig) (w w1 : World) (e : Thrown) :
  run (base this) (begin_statement config) w = (Throw e, w1) ->
  transaction this f config w = (Throw e, w1)
  /\ trace w1 = trace w ++ [Executed (db (base this)) (begin_statement config)].
Proof.
  intros Hbegin. split.
  - exact (AdapterFacts.transaction_begin_refused _ _ _ _ _ NoopLogger prepared_run
             this f config w w1 e Hbegin).
  - exact (run_accepted_trace _ _ _ _ _ Hbegin).
Qed.

(** X2.  When the callback returns but the driver refuses [commit], the
    wrapper runs [rollback] right after the refused [commit] and, the
    rollback accepted, throws the error of [commit]: the value of the
    callback is dropped. *)
Theorem commit_refused_rolls_back {T} (this : Session) (f : Transaction -> M World T)
    (config : OPSQLiteTransactionConfig) (w w1 w2 w3 w4 : World) (v : T) (e : Thrown) :
  run (base this) (begin_statement config) w = (Normal tt, w1) ->
  f (new_tx this) (record (Entered (new_tx this)) w1) = (Normal v, w2) ->
  run (base this) commit_statement w2 = (Throw e, w3) ->
  run (base this) rollback_statement w3 = (Normal tt, w4) ->
  transaction this f config w = (Throw e, w4)
  /\ trace w4
     = trace w2 ++ [Executed (db (base this)) commit_statement;
                    Executed (db (base this)) rollback_statement].
Proof.
  intros Hbegin Hf Hcommit Hrollback. split.
  - exact (AdapterFacts.transaction_commit_refused _ _ _ _ _ NoopLogger prepared_run
             this f config w w1 w2 w3 w4 v e Hbegin Hf Hcommit Hrollback).
  - rewrite (run_accepted_trace _ _ _ _ _ Hrollback),
      (run_accepted_trace _ _ _ _ _ Hcommit), <- app_assoc.
    reflexivity.
Qed.

(** X3.  When the guarded block ends in a throw (the callback threw, or
    it returned and [commit] was refused) and the driver refuses the
    [rollback] as well, the caller sees the error of [rollback]; the error
    that caused the rollback is lost. *)
Theorem rollback_error_wins {T} (this : Session) (f : Transaction -> M World T)
    (config : OPSQLiteTransactionConfig) (w w1 w2 w3 : World) (e e' : Thrown) :
  run (base this) (begin_statement config) w = (Normal tt, w1) ->
  (f (new_tx this) (record (Entered (new_tx this)) w1) = (Throw e, w2)
   \/ exists v wf,
        f (new_tx this) (record (Entered (new_tx this)) w1) = (Normal v, wf)
        /\ run (base this) commit_statement wf = (Throw e, w2)) ->
  run (base this) rollback_statement w2 = (Throw e', w3) ->
  transaction this f config w = (Throw e', w3).
Proof.
  intros Hbegin Hblock Hrollback.
  unfold OPSQLiteSession_transaction, bind, try_catch, invoke.
  rewrite Hbegin.
  destruct Hblock as [Hf | (v & wf & Hf & Hcommit)].
  - rewrite Hf, Hrollback. reflexivity.
  - rewrite Hf, Hcommit, Hrollback. reflexivity.
Qed.

(** X4.  The wrapper returns a value only after a commit: whenever
    [OPSQLiteSession.transaction] returns [v], the driver accepted the
    opening statement, the callback returned [v], and the driver accepted
    [commit], which was the last thing the wrapper did. *)
Theorem returns_only_after_commit {T} (this : Session) (f : Transaction -> M World T)
    (config : OPSQLiteTransactionConfig) (w w' : World) (v : T) :
  transaction this f config w = (Normal v, w') ->
  exists w1 w2,
    run (base this) (begin_statement config) w = (Normal tt, w1)
    /\ f (new_tx this) (record (Entered (new_tx this)) w1) = (Normal v, w2)
    /\ run (base this) commit_statement w2 = (Normal tt, w')
    /\ trace w' = trace w2 ++ [Executed (db (base this)) commit_statement].
Proof.
  unfold OPSQLiteSession_transaction, bind, try_catch, invoke, ret, throw.
  destruct (run (base this) (begin_statement config) w) as [[[] | e0] w1] eqn:Hbegin;
    [| discriminate].
  destruct (f (new_tx this) (record (Entered (new_tx this)) w1))
    as [[v0 | e1] w2] eqn:Hf.
  - destruct (run (base this) commit_statement w2) as [[[] | e2] w3] eqn:Hcommit.
    + intros Hrun. injection Hrun as <- <-.
      exists w1, w2. repeat split; try assumption.
      exact (run_accepted_trace _ _ _ _ _ Hcommit).
    + destruct (run (base this) rollback_statement w3) as [[[] | e3] w4];
        discriminate.
  - destruct (run (base this) rollback_statement w2) as [[[] | e3] w4];
      discriminate.
Qed.

(** X5.  Once the opening statement is accepted, every way in which the
    wrapper throws ends with [rollback] handed to the connection: no
    failure leaves the transaction without an attempt to roll it back. *)
Theorem throws_only_after_rollback {T} (this : Session) (f : Transaction -> M World T)
    (config : OPSQLiteTransactionConfig) (w w1 w' : World) (e : Thrown) :
  run (base this) (begin_statement config) w = (Normal tt, w1) ->
  transaction this f config w = (Throw e, w') ->
  exists w2 : World,
    trace w' = trace w2 ++ [Executed (db (base this)) rollback_statement].
Proof.
  intros Hbegin.
  unfold OPSQLiteSession_transaction, bind, try_catch, invoke, ret, throw.
  rewrite Hbegin.
  destruct (f (new_tx this) (record (Entered (new_tx this)) w1))
    as [[v0 | e1] w2] eqn:Hf.
  - destruct (run (base this) commit_statement w2) as [[[] | e2] w3] eqn:Hcommit;
      [discriminate |].
    destruct (run (base this) rollback_statement w3) as [[[] | e3] w4] eqn:Hrollback;
      intros Hrun; injection Hrun as _ <-; exists w3;
      exact (run_accepted_trace _ _ _ _ _ Hrollback).
  - destruct (run (base this) rollback_statement w2) as [[[] | e3] w4] eqn:Hrollback;
      intros Hrun; injection Hrun as _ <-; exists w2;
      exact (run_accepted_trace _ _ _ _ _ Hrollback).
Qed.


End Session.

Section Factory.

Variables (DB Store Dialect Schema Logger FullSchema Casing CacheFn : Type).
Variables (NoopLogger DefaultLogger : Logger).
Variable prepared_run : DB -> Dialect -> Logger -> SQL -> Store -> Completion unit * Store.
Variable SQLiteSyncDialect : option Casing -> Dialect.
Variable relational_config : FullSchema -> Schema.

Local Abbreviation World := (Adapter.World DB Store Dialect Schema Logger).
Local Abbreviation drizzle :=
  (Adapter.drizzle NoopLogger DefaultLogger SQLiteSyncDialect relational_config).
Local Abbreviation run := (Adapter.run prepared_run).

(** X8.  Every statement that the session of [drizzle(client, config)]
    runs is handed to [client] itself, rendered by the dialect made from
    [config.casing] and reported to the logger selected from
    [config.logger]; the session inside a transaction object of that
    session does exactly the same, and [$client] is [client]. *)
Theorem drizzle_statements_reach_client (client0 : DB)
    (config : DrizzleConfig Logger FullSchema Casing CacheFn) (q : SQL) (w : World) :
  let database := drizzle client0 config in
  let session := database_session _ _ _ _ _ database in
  let effect :=
    prepared_run client0 (SQLiteSyncDialect (cfg_casing _ _ _ _ config))
      (session_logger database) q (store w) in
  run (base session) q w
  = (fst effect, {| store := snd effect; trace := trace w ++ [Executed client0 q] |})
  /\ run (session_fields _ _ _ _ (tx_session (new_tx NoopLogger session))) q w
     = run (base session) q w
  /\ dollar_client _ _ _ _ _ database = client0.
Proof.
  cbv zeta. split; [| split].
  - unfold Adapter.run, session_logger. simpl.
    destruct (prepared_run client0 _ _ q (store w)). reflexivity.
  - reflexivity.
  - reflexivity.
Qed.

End Factory.

(** *** Runs on the scripted connection *)

Local Abbreviation scripted_transaction script :=
  (OPSQLiteSession_transaction "noop" (scripted_run script) session0).

Lemma begin_refused_skips_callback_witness :
  exists w1,
    scripted_transaction begin_busy returns_seven immediate_read_only world0
    = (Throw (failed_to_run "begin?" busy), w1)
    /\ store w1 = [].
Proof.
  eexists. split.
  - refine (proj1 (begin_refused_skips_callback _ _ _ _ _ "noop" (scripted_run begin_busy)
                     session0 returns_seven immediate_read_only world0 _
                     (failed_to_run "begin?" busy) _)).
    reflexivity.
  - reflexivity.
Defined.

Lemma commit_refused_rolls_back_witness :
  exists w4,
    scripted_transaction commit_busy returns_seven empty_config world0
    = (Throw (failed_to_run "commit" busy), w4)
    /\ store w4
       = [ {| query_sql := "begin?"; query_params := [""] |};
           {| query_sql := "rollback"; query_params := [] |} ].
Proof.
  eexists. split.
  - refine (proj1 (commit_refused_rolls_back _ _ _ _ _ "noop" (scripted_run commit_busy)
                     session0 returns_seven empty_config world0 _ _ _ _ 7
                     (failed_to_run "commit" busy) _ _ _ _));
      reflexivity.
  - reflexivity.
Defined.

Lemma rollback_error_wins_witness :
  exists w3,
    scripted_transaction commit_and_rollback_refused returns_seven empty_config world0
    = (Throw (failed_to_run "rollback" no_transaction), w3)
    /\ store w3 = [ {| query_sql := "begin?"; query_params := [""] |} ].
Proof.
  eexists. split.
  - refine (rollback_error_wins _ _ _ _ _ "noop" (scripted_run commit_and_rollback_refused)
              session0 returns_seven empty_config world0 _ _ _
              (failed_to_run "commit" busy) (failed_to_run "rollback" no_transaction)
              _ _ _).
    + reflexivity.
    + right. exists 7. eexists. split; reflexivity.
    + reflexivity.
  - reflexivity.
Defined.

Lemma returns_only_after_commit_witness :
  exists w1 w2 w',
    Adapter.run (scripted_run accepts_all) (base session0)
      (begin_statement immediate_read_only) world0
    = (Normal tt, w1)
    /\ returns_seven (new_tx "noop" session0)
         (record (Entered (new_tx "noop" session0)) w1)
       = (Normal 7, w2)
    /\ Adapter.run (scripted_run accepts_all) (base session0) commit_statement w2
       = (Normal tt, w').
Proof.
  destruct (returns_only_after_commit _ _ _ _ _ "noop" (scripted_run accepts_all)
              session0 returns_seven immediate_read_only world0
              (snd (scripted_transaction accepts_all returns_seven
                      immediate_read_only world0))
              7 eq_refl)
    as (w1 & w2 & Hbegin & Hf & Hcommit & _).
  exists w1, w2. eexists. repeat split; eassumption.
Defined.

Lemma throws_only_after_rollback_witness :
  exists w2 : Adapter.World nat (list Query) unit unit string,
    trace (snd (scripted_transaction accepts_all throws_boom empty_config world0))
    = trace w2 ++ [Executed 1 rollback_statement].
Proof.
  refine (throws_only_after_rollback _ _ _ _ _ "noop" (scripted_run accepts_all)
            session0 throws_boom empty_config world0 _ _ boom _ _);
    reflexivity.
Defined.


End AdapterExtra.

(** ** More on the update and commit hooks *)

Module HooksExtra.

Import JsObject Hooks Harness Instances MoreInstances HooksFacts.

(** X9.  The update hook never throws and buffers exactly one
    notification, after those already buffered, with the table and the row
    of the update.  Its [opType] follows the operation, which is compared
    exactly: for any operation other than [INSERT], [DELETE] and [UPDATE]
    the notification is buffered all the same, with [opType] left
    [undefined]. *)
Theorem updateHook_buffers_one (update : UpdateHookData) (this : System) :
  exists n,
    updateHook update this
    = (Normal tt,
       {| updateBuffer := updateBuffer this ++ [n];
          listeners := listeners this;
          notified := notified this |})
    /\ table n = update_table update
    /\ rowId n = update_rowId update
    /\ (opType n = Some SQLITE_INSERT <-> update_operation update = "INSERT")
    /\ (opType n = Some SQLITE_DELETE <-> update_operation update = "DELETE")
    /\ (opType n = Some SQLITE_UPDATE <-> update_operation update = "UPDATE")
    /\ (opType n = None
        <-> update_operation update <> "INSERT"
            /\ update_operation update <> "DELETE"
            /\ update_operation update <> "UPDATE").
Proof.
  eexists. split; [reflexivity |]. cbn [table rowId opType].
  split; [reflexivity |]. split; [reflexivity |].
  destruct (String.eqb_spec (update_operation update) "INSERT") as [-> | Hi].
  { repeat split; try discriminate; try reflexivity; intros H;
      try discriminate H; destruct H as (H & _); contradiction. }
  destruct (String.eqb_spec (update_operation update) "DELETE") as [-> | Hd].
  { repeat split; try discriminate; try reflexivity; intros H;
      try discriminate H; destruct H as (_ & H & _); contradiction. }
  destruct (String.eqb_spec (update_operation update) "UPDATE") as [-> | Hu].
  { repeat split; try discriminate; try reflexivity; intros H;
      try discriminate H; destruct H as (_ & _ & H); contradiction. }
  repeat split; try discriminate; try assumption; try contradiction.
Qed.

(** The hooks of one transaction, called update after update. *)
Lemma updateHooks_buffer (updates : list UpdateHookData) :
  forall this : System,
    exists ns,
      for_each updates updateHook this
      = (Normal tt,
         {| updateBuffer := updateBuffer this ++ ns;
            listeners := listeners this;
            notified := notified this |})
      /\ map table ns = map update_table updates
      /\ map rowId ns = map update_rowId updates.
Proof.
  induction updates as [| u rest IH]; intros this.
  - exists []. split; [| split; reflexivity].
    destruct this. simpl. unfold ret. rewrite app_nil_r. reflexivity.
  - cbn [for_each]. unfold bind. unfold updateHook at 1.
    match goal with
    | |- context [for_each rest updateHook ?st] => destruct (IH st) as (ns & Hrun & Ht & Hr)
    end.
    rewrite Hrun. cbn [updateBuffer listeners notified].
    eexists (_ :: ns). split; [| split].
    + rewrite <- app_assoc. reflexivity.
    + cbn [map table]. rewrite Ht. reflexivity.
    + cbn [map rowId]. rewrite Hr. reflexivity.
Qed.

(** X10.  The hooks of one transaction, taken together: starting with an
    empty buffer, the update hooks of a transaction followed by its commit
    hook call [tablesUpdated] once on every listener that defines it, all
    with one batch whose raw updates are the updates of the transaction in
    the order they were reported and whose tables are the tables they
    touched; the buffer is empty again afterwards.  (No table may be named
    like a property that objects inherit.) *)
Theorem hooks_deliver_transaction (updates : list UpdateHookData) (this : System) :
  updateBuffer this = [] ->
  updates <> [] ->
  (forall u, In u updates -> inherited (update_table u) = false) ->
  exists batch,
    (for_each updates updateHook ;;; commitHook) this
    = (Normal tt,
       {| updateBuffer := [];
          listeners := listeners this;
          notified :=
            notified this
              ++ map (fun l => (listener_id l, batch))
                   (filter has_tablesUpdated (listeners this)) |})
    /\ map table (rawUpdates batch) = map update_table updates
    /\ map rowId (rawUpdates batch) = map update_rowId updates
    /\ NoDup (tables batch)
    /\ (forall t, In t (tables batch) <-> In t (map update_table updates)).
Proof.
  intros Hempty Hsome Hsafe.
  destruct (updateHooks_buffer updates this) as (ns & Hrun & Ht & Hr).
  rewrite Hempty in Hrun. cbn [app] in Hrun.
  set (buffered := {| updateBuffer := ns; listeners := listeners this;
                      notified := notified this |}) in *.
  assert (Hne : updateBuffer buffered <> []).
  { cbn. intros ->. destruct updates; [contradiction | discriminate Ht]. }
  assert (Hnames : named_safely (updateBuffer buffered)).
  { intros n Hn. cbn in Hn.
    apply (in_map table) in Hn. rewrite Ht in Hn.
    apply in_map_iff in Hn. destruct Hn as (u & Heq & Hu).
    rewrite <- Heq. apply Hsafe, Hu. }
  destruct (commitHook_notifies buffered Hne Hnames)
    as (batch & Hcommit & Hraw & _ & Hnd & Htables).
  exists batch. unfold bind. rewrite Hrun, Hcommit. cbn in Hraw.
  split; [reflexivity |]. rewrite Hraw.
  split; [exact Ht | split; [exact Hr | split; [exact Hnd |]]].
  intros t. rewrite Htables, <- Ht. cbn. rewrite in_map_iff.
  split; intros (n & H1 & H2); exists n; auto.
Qed.

(** A buffer either names only safe tables or holds an update whose
    table is named like an inherited property. *)
Lemma safely_or_not (buffer : list UpdateNotification) :
  named_safely buffer \/ exists u, In u buffer /\ inherited (table u) = true.
Proof.
  destruct (existsb (fun u => inherited (table u)) buffer) eqn:Hsome.
  - right. apply existsb_exists in Hsome. exact Hsome.
  - left. intros u Hu. destruct (inherited (table u)) eqn:Hin; [| reflexivity].
    assert (Htrue : existsb (fun x => inherited (table x)) buffer = true)
      by (apply existsb_exists; exists u; split; assumption).
    congruence.
Qed.

(** X11.  The commit hook flushes at most once: calling it a second time
    right after the first changes nothing more, whatever the buffer held
    (the second call finds the buffer empty, or is not reached because
    the first call threw). *)
Theorem commitHook_twice (this : System) :
  (commitHook ;;; commitHook) this = commitHook this.
Proof.
  unfold bind at 1.
  destruct (updateBuffer this) as [| u rest] eqn:Hbuf.
  - destruct (commitHook_empty this Hbuf) as [Hrun _]. rewrite Hrun. exact Hrun.
  - destruct (safely_or_not (updateBuffer this)) as [Hsafe | Hbad].
    + assert (Hne : updateBuffer this <> []) by (rewrite Hbuf; discriminate).
      destruct (commitHook_notifies this Hne Hsafe) as (batch & Hrun & _).
      rewrite Hrun. reflexivity.
    + rewrite (commitHook_inherited this Hbad). reflexivity.
Qed.

Lemma concat_replace (grouping : Obj (list UpdateNotification)) (k : string)
    (old : list UpdateNotification) (u : UpdateNotification) :
  own grouping k = Some old ->
  Permutation (List.concat (map snd (replace grouping k (old ++ [u]))))
    (List.concat (map snd grouping) ++ [u]).
Proof.
  induction grouping as [| [k0 v0] rest IH]; simpl; intros Hown.
  - discriminate Hown.
  - destruct (String.eqb k0 k); simpl.
    + injection Hown as ->. rewrite <- !app_assoc.
      apply Permutation_app_head, Permutation_app_comm.
    + rewrite <- app_assoc. apply Permutation_app_head, IH, Hown.
Qed.

Lemma replace_nonempty (grouping : Obj (list UpdateNotification)) (k : string)
    (old : list UpdateNotification) (u : UpdateNotification) :
  Forall (fun entry => snd entry <> []) grouping ->
  Forall (fun entry => snd entry <> []) (replace grouping k (old ++ [u])).
Proof.
  induction 1 as [| [k0 v0] rest Hhead Hrest IH]; simpl.
  - constructor.
  - destruct (String.eqb k0 k); constructor; try assumption.
    simpl. intros Hnil. apply app_eq_nil in Hnil. destruct Hnil as [_ Hnil].
    discriminate Hnil.
Qed.

Lemma reduce_partition (buffer : list UpdateNotification) :
  forall grouping grouped : Obj (list UpdateNotification),
    reduce buffer grouping = Normal grouped ->
    Permutation (List.concat (map snd grouped)) (List.concat (map snd grouping) ++ buffer)
    /\ (Forall (fun entry => snd entry <> []) grouping ->
        Forall (fun entry => snd entry <> []) grouped).
Proof.
  induction buffer as [| u rest IH]; intros grouping grouped Hrun.
  - simpl in Hrun. injection Hrun as <-. rewrite app_nil_r.
    split; [apply Permutation_refl | exact (fun H => H)].
  - cbn [reduce] in Hrun. unfold group_update, get in Hrun.
    destruct (own grouping (table u)) as [old |] eqn:Hown.
    + destruct (IH _ _ Hrun) as [Hperm Hne]. split.
      * apply perm_trans with (1 := Hperm).
        apply perm_trans
          with ((List.concat (map snd grouping) ++ [u]) ++ rest).
        -- apply Permutation_app_tail, concat_replace, Hown.
        -- rewrite <- app_assoc. apply Permutation_refl.
      * intros Hall. apply Hne, replace_nonempty, Hall.
    + destruct (inherited (table u)); [discriminate Hrun |].
      destruct (IH _ _ Hrun) as [Hperm Hne]. split.
      * apply perm_trans with (1 := Hperm).
        unfold define. rewrite map_app, List.concat_app. simpl.
        rewrite <- app_assoc. apply Permutation_refl.
      * intros Hall. apply Hne. unfold define. apply Forall_app. split; [exact Hall |].
        constructor; [discriminate | constructor].
Qed.

(** X12.  The grouping that the commit hook computes is a partition of
    the buffer: whenever the reducer completes, the groups put end to end
    hold every buffered update exactly once, no group is empty, no table
    has two groups, and the group of a table holds the updates of that
    table in buffer order. *)
Theorem groups_partition_buffer (buffer : list UpdateNotification)
    (grouped : Obj (list UpdateNotification)) :
  reduce buffer empty = Normal grouped ->
  Permutation (List.concat (map snd grouped)) buffer
  /\ Forall (fun entry => snd entry <> []) grouped
  /\ NoDup (map fst grouped)
  /\ (forall t group, own grouped t = Some group -> group = updates_of t buffer).
Proof.
  intros Hrun.
  destruct (reduce_partition buffer empty grouped Hrun) as [Hperm Hne].
  split; [exact Hperm | split; [apply Hne; constructor |]].
  destruct (safely_or_not buffer) as [Hsafe | Hbad].
  - destruct (reduce_groups buffer empty Hsafe (NoDup_nil _))
      as (grouped' & Hrun' & Hnd & Hown).
    rewrite Hrun in Hrun'. injection Hrun' as <-.
    split; [exact Hnd |].
    intros t group Ht. rewrite Hown in Ht. simpl in Ht.
    destruct (updates_of t buffer); [discriminate Ht |].
    injection Ht as <-. reflexivity.
  - rewrite (reduce_inherited buffer empty) in Hrun; [discriminate Hrun | | exact Hbad].
    intros k [].
Qed.

(** X13.  One buffered update for a table named like an inherited
    property silences the hooks for good: the commit hook throws before
    it empties the buffer, so the update stays, and every later commit,
    whatever updates were buffered in between, throws again without
    calling any listener. *)
Theorem inherited_table_blocks_hooks (this : System) (updates : list UpdateHookData) :
  (exists u, In u (updateBuffer this) /\ inherited (table u) = true) ->
  exists this' ns,
    (for_each updates updateHook ;;; commitHook) this
    = (Throw push_not_a_function, this')
    /\ notified this' = notified this
    /\ listeners this' = listeners this
    /\ updateBuffer this' = updateBuffer this ++ ns
    /\ List.length ns = List.length updates.
Proof.
  intros (bad & Hin & Hbad).
  destruct (updateHooks_buffer updates this) as (ns & Hrun & Ht & _).
  eexists. exists ns. unfold bind. rewrite Hrun.
  rewrite commitHook_inherited.
  - repeat split.
    rewrite <- (length_map table), Ht, length_map. reflexivity.
  - exists bad. cbn. split; [apply in_or_app; left; exact Hin | exact Hbad].
Qed.

(** *** Runs of the hooks *)

Lemma hooks_deliver_transaction_witness :
  exists batch,
    (for_each reported_updates updateHook ;;; commitHook) (system_with [])
    = (Normal tt,
       {| updateBuffer := []; listeners := listening; notified := [(0, batch)] |})
    /\ map table (rawUpdates batch) = ["lists"; "todos"; "lists"]
    /\ map rowId (rawUpdates batch) = [4; 2; 3]%N.
Proof.
  destruct (hooks_deliver_transaction reported_updates (system_with []))
    as (batch & Hrun & Ht & Hr & _).
  - reflexivity.
  - discriminate.
  - intros u [<- | [<- | [<- | []]]]; reflexivity.
  - exists batch. split; [exact Hrun | split; assumption].
Defined.

Lemma groups_partition_buffer_witness :
  exists grouped,
    reduce two_tables_buffer empty = Normal grouped
    /\ Permutation (List.concat (map snd grouped)) two_tables_buffer.
Proof.
  eexists. split; [reflexivity |].
  refine (proj1 (groups_partition_buffer two_tables_buffer _ _)). reflexivity.
Defined.

Lemma inherited_table_blocks_hooks_witness :
  exists this',
    (for_each reported_updates updateHook ;;; commitHook) (system_with constructor_buffer)
    = (Throw push_not_a_function, this')
    /\ notified this' = [].
Proof.
  destruct (inherited_table_blocks_hooks (system_with constructor_buffer) reported_updates)
    as (this' & ns & Hrun & Hnotified & _).
  - exists (inserted "constructor" 1). split; [left; reflexivity | reflexivity].
  - exists this'. split; assumption.
Defined.

End HooksExtra.

(** ** The identifiers *)

Module UuidFacts.

Import Uuid.

Lemma toString16_digit (v : N) :
  (v < 16)%N ->
  exists h, toString16 v = String h EmptyString /\ hexadecimal h = true.
Proof.
  intros Hv.
  assert (Hcases : (v = 0 \/ v = 1 \/ v = 2 \/ v = 3 \/ v = 4 \/ v = 5 \/ v = 6 \/ v = 7
                    \/ v = 8 \/ v = 9 \/ v = 10 \/ v = 11 \/ v = 12 \/ v = 13
                    \/ v = 14 \/ v = 15)%N) by lia.
  repeat (destruct Hcases as [-> | Hcases]; [eexists; split; reflexivity |]).
  subst v. eexists; split; reflexivity.
Qed.

Lemma variant_digit (r : N) :
  exists h,
    toString16 (N.lor (N.land r 3) 8) = String h EmptyString /\ variant h = true.
Proof.
  change 3%N with (N.ones 2). rewrite N.land_ones.
  change (2 ^ 2)%N with 4%N.
  assert (Hbound : (r mod 4 < 4)%N) by (apply N.mod_upper_bound; discriminate).
  generalize dependent (r mod 4)%N. intros m Hbound.
  assert (Hcases : (m = 0 \/ m = 1 \/ m = 2 \/ m = 3)%N) by lia.
  destruct Hcases as [-> | [-> | [-> | ->]]]; eexists; split; reflexivity.
Qed.

Section Random.

Variable Random : Type.
Variable random16 : Random -> N * Random.

(** [Math.random()] lies in the interval from [0] (included) to [1]
    (excluded), so the number drawn is below sixteen. *)
Hypothesis below_sixteen : forall g, (fst (random16 g) < 16)%N.

Lemma replace_xy_fits (s : string) :
  forall g, fits s (fst (replace_xy Random random16 s g)) = true.
Proof.
  induction s as [| c rest IH]; intros g.
  - reflexivity.
  - cbn [replace_xy]. unfold replacement.
    destruct (Ascii.eqb c "x") eqn:Hx; cbn [orb].
    + destruct (random16 g) as [r g1] eqn:Hdraw.
      specialize (IH g1). destruct (replace_xy Random random16 rest g1) as [out g2].
      destruct (toString16_digit r) as (h & -> & Hh).
      { pose proof (below_sixteen g) as Hb. rewrite Hdraw in Hb. exact Hb. }
      cbn [fst append fits]. rewrite Hx, Hh. exact IH.
    + destruct (Ascii.eqb c "y") eqn:Hy.
      * destruct (random16 g) as [r g1].
        specialize (IH g1). destruct (replace_xy Random random16 rest g1) as [out g2].
        destruct (variant_digit r) as (h & -> & Hh).
        cbn [fst append fits]. rewrite Hx, Hy, Hh. exact IH.
      * specialize (IH g). destruct (replace_xy Random random16 rest g) as [out g2].
        cbn [fst fits]. rewrite Hx, Hy, Ascii.eqb_refl. exact IH.
Qed.

End Random.

Lemma fits_length (pattern : string) :
  forall s, fits pattern s = true -> String.length s = String.length pattern.
Proof.
  induction pattern as [| p ps IH]; intros [| c cs] Hfits; simpl in *;
    try discriminate; try reflexivity.
  apply andb_true_iff in Hfits. destruct Hfits as [_ Hrest].
  f_equal. apply IH, Hrest.
Qed.

Lemma fits_get (pattern : string) :
  forall (s : string) (i : nat) (p : ascii),
    fits pattern s = true ->
    String.get i pattern = Some p ->
    exists c,
      String.get i s = Some c
      /\ (if Ascii.eqb p "x" then hexadecimal c
          else if Ascii.eqb p "y" then variant c
          else Ascii.eqb p c) = true.
Proof.
  induction pattern as [| q qs IH]; intros [| c cs] i p Hfits Hget; simpl in *;
    try discriminate.
  apply andb_true_iff in Hfits. destruct Hfits as [Hhead Hrest].
  destruct i as [| i].
  - injection Hget as <-. exists c. split; [reflexivity | exact Hhead].
  - apply (IH cs i p Hrest Hget).
Qed.

(** X14.  Whatever numbers below sixteen [Math.random] yields, [uuid()]
    returns the pattern [xxxxxxxx-xxxx-4xxx-yxxx-xxxxxxxxxxxx] with a
    lowercase hexadecimal digit for every [x] and one of [8], [9], [a],
    [b] for the [y]: thirty-six characters, hyphens after the eighth,
    twelfth, sixteenth and twentieth digit, and the version digit [4]. *)
Theorem uuid_shape (Random : Type) (random16 : Random -> N * Random) (g : Random) :
  (forall g', (fst (random16 g') < 16)%N) ->
  let u := fst (uuid Random random16 g) in
  fits template u = true
  /\ String.length u = 36
  /\ String.get 8 u = Some "-"%char
  /\ String.get 13 u = Some "-"%char
  /\ String.get 14 u = Some "4"%char
  /\ String.get 18 u = Some "-"%char
  /\ (exists c, String.get 19 u = Some c /\ variant c = true)
  /\ String.get 23 u = Some "-"%char.
Proof.
  intros Hbound. cbv zeta.
  assert (Hfits : fits template (fst (uuid Random random16 g)) = true)
    by exact (replace_xy_fits Random random16 Hbound template g).
  assert (Hfixed : forall i p,
             String.get i template = Some p ->
             Ascii.eqb p "x" = false -> Ascii.eqb p "y" = false ->
             String.get i (fst (uuid Random random16 g)) = Some p).
  { intros i p Hget Hx Hy.
    destruct (fits_get _ _ _ _ Hfits Hget) as (c & Hc & Hcond).
    rewrite Hx, Hy in Hcond. apply Ascii.eqb_eq in Hcond. rewrite Hcond. exact Hc. }
  split; [exact Hfits |].
  split; [exact (fits_length _ _ Hfits) |].
  split; [apply Hfixed; reflexivity |].
  split; [apply Hfixed; reflexivity |].
  split; [apply Hfixed; reflexivity |].
  split; [apply Hfixed; reflexivity |].
  split; [| apply Hfixed; reflexivity].
  destruct (fits_get _ _ 19 "y"%char Hfits eq_refl) as (c & Hc & Hcond).
  exists c. split; [exact Hc | exact Hcond].
Qed.

Lemma uuid_shape_witness :
  fst (uuid N counter16 5%N) = "5c3a18f6-d4b2-4907-a5c3-a18f6d4b2907"
  /\ fits template (fst (uuid N counter16 5%N)) = true.
Proof.
  split; [vm_compute; reflexivity |].
  refine (proj1 (uuid_shape N counter16 5%N _)).
  intros g. unfold counter16. cbn [fst]. apply N.mod_upper_bound. discriminate.
Defined.

End UuidFacts.

(** ** The upload connector *)

Module ConnectorFacts.

Import Harness Connector.

Section Upload.

Variables (Backend Op OpData Response : Type).
Variable getNextCrudTransaction
  : Backend -> Completion (option (CrudTransaction Op OpData)) * Backend.
Variable getClientId : Backend -> Completion string * Backend.
Variable fetch : string -> string -> string -> Backend -> Completion Response * Backend.
Variable ok : Response -> bool.
Variable status : Response -> nat.
Variable response_text : Response -> Backend -> Completion string * Backend.
Variable complete : CrudTransaction Op OpData -> Backend -> Completion unit * Backend.
Variable JSON_stringify : list (Payload Op OpData) -> string.

Local Abbreviation World := (Connector.World Backend).
Local Abbreviation uploadData :=
  (Connector.uploadData Backend Op OpData Response getNextCrudTransaction getClientId
     fetch ok status response_text complete JSON_stringify).
Local Abbreviation ensure_clientId := (Connector.ensure_clientId Backend getClientId).

(** The loop that fills [batch] maps the entries, in order. *)
Lemma build_batch_map (entries : list (CrudEntry Op OpData)) :
  build_batch entries = map payload_of entries.
Proof.
  unfold build_batch.
  assert (Hgen : forall acc : list (Payload Op OpData),
             fold_left (fun batch operation => batch ++ [payload_of operation]) entries acc
             = acc ++ map payload_of entries).
  { induction entries as [| e rest IH]; intros acc; simpl.
    - rewrite app_nil_r. reflexivity.
    - rewrite IH, <- app_assoc. reflexivity. }
  apply (Hgen []).
Qed.

(** X15.  With no crud transaction pending, [uploadData] returns at
    once: it does not ask for the client identifier, sends nothing to the
    backend and completes nothing. *)
Theorem upload_nothing_pending (w : World) (b : Backend) :
  getNextCrudTransaction (backend w) = (Normal None, b) ->
  uploadData w
  = (Normal tt,
     {| _clientId := _clientId w;
        backend := b;
        calls := calls w ++ [GetNextCrudTransaction] |}).
Proof.
  intros Hnext. unfold Connector.uploadData, bind, call. rewrite Hnext. reflexivity.
Qed.

(** X16.  An upload that the backend answers with a response that is not
    [ok] is never completed: [uploadData] reads the text of the response
    and throws [Error('Received <status> from /api/data: <text>')], and
    [transaction.complete()] is not called, so the transaction stays
    pending. *)
Theorem upload_rejected_not_completed (w w2 : World) (b1 b3 b4 : Backend)
    (t : CrudTransaction Op OpData) (response : Response) (text : string) :
  getNextCrudTransaction (backend w) = (Normal (Some t), b1) ->
  ensure_clientId
    {| _clientId := _clientId w; backend := b1;
       calls := calls w ++ [GetNextCrudTransaction] |}
  = (Normal tt, w2) ->
  fetch data_url "POST" (JSON_stringify (build_batch (crud t))) (backend w2)
  = (Normal response, b3) ->
  ok response = false ->
  response_text response b3 = (Normal text, b4) ->
  uploadData w
  = (Throw (Error ("Received " ++ decimal (status response)
                     ++ " from /api/data: " ++ text)%string),
     {| _clientId := _clientId w2;
        backend := b4;
        calls := calls w2
                   ++ [Fetch data_url "POST" (JSON_stringify (build_batch (crud t)));
                       ResponseText] |}).
Proof.
  intros Hnext Hid Hfetch Hok Htext.
  unfold Connector.uploadData, bind, try_catch, call, throw.
  rewrite Hnext, Hid, Hfetch, Hok. cbn [negb backend _clientId calls].
  rewrite Htext. cbn [backend _clientId calls].
  rewrite <- app_assoc. reflexivity.
Qed.

(** X17.  An upload that the backend answers with an [ok] response: the
    body posted is the JSON text of a batch that holds one payload per
    crud entry, in the order of the entries, each with the [op], [table],
    [id] and data of its entry; [transaction.complete()] is called right
    after the post, and its completion is that of [uploadData]. *)
Theorem upload_accepted_completes (w w2 : World) (b1 b3 b4 : Backend)
    (t : CrudTransaction Op OpData) (response : Response) (c : Completion unit) :
  getNextCrudTransaction (backend w) = (Normal (Some t), b1) ->
  ensure_clientId
    {| _clientId := _clientId w; backend := b1;
       calls := calls w ++ [GetNextCrudTransaction] |}
  = (Normal tt, w2) ->
  fetch data_url "POST" (JSON_stringify (map payload_of (crud t))) (backend w2)
  = (Normal response, b3) ->
  ok response = true ->
  complete t b3 = (c, b4) ->
  uploadData w
  = (c,
     {| _clientId := _clientId w2;
        backend := b4;
        calls := calls w2
                   ++ [Fetch data_url "POST" (JSON_stringify (map payload_of (crud t)));
                       Complete (transaction_id t)] |}).
Proof.
  intros Hnext Hid Hfetch Hok Hcomplete.
  unfold Connector.uploadData, bind, try_catch, call, throw, ret.
  rewrite Hnext, Hid, build_batch_map, Hfetch, Hok.
  cbn [negb backend _clientId calls]. rewrite Hcomplete.
  rewrite <- app_assoc. destruct c; reflexivity.
Qed.

(** X18.  The client identifier is asked for at most once: when
    [_clientId] already holds a string that is not empty, [uploadData],
    however it ends, leaves [_clientId] as it is and does not call
    [database.getClientId()]. *)
Theorem client_id_not_fetched_again (w w' : World) (value : string)
    (c : Completion unit) :
  _clientId w = Some value ->
  value <> "" ->
  uploadData w = (c, w') ->
  _clientId w' = Some value
  /\ exists made, calls w' = calls w ++ made /\ ~ In GetClientId made.
Proof.
  intros Hid Hne.
  assert (Hset : String.eqb value "" = false) by (apply String.eqb_neq; exact Hne).
  unfold Connector.uploadData, bind, call.
  destruct (getNextCrudTransaction (backend w)) as [[[t |] | e] b1].
  - unfold Connector.ensure_clientId, Connector.no_clientId.
    cbn [_clientId backend calls]. rewrite Hid, Hset.
    unfold try_catch, bind, call, throw, ret. cbn [_clientId backend calls].
    destruct (fetch _ _ _ b1) as [[response | e] b3].
    + destruct (ok response); cbn [negb _clientId backend calls].
      * destruct (complete t b3) as [[[] | e] b4]; intros Hrun;
          injection Hrun as <- <-; cbn [_clientId calls];
          (split; [reflexivity |]); eexists;
          (split; [rewrite <- !app_assoc; reflexivity |]);
          simpl; intuition discriminate.
      * cbn [_clientId backend calls].
        destruct (response_text response b3) as [[text | e] b4]; intros Hrun;
          injection Hrun as <- <-; cbn [_clientId calls];
          (split; [reflexivity |]); eexists;
          (split; [rewrite <- !app_assoc; reflexivity |]);
          simpl; intuition discriminate.
    + intros Hrun. injection Hrun as <- <-. cbn [_clientId calls].
      split; [reflexivity |]. eexists.
      split; [rewrite <- app_assoc; reflexivity |].
      simpl. intuition discriminate.
  - unfold ret. intros Hrun. injection Hrun as <- <-. cbn [_clientId calls].
    split; [exact Hid |]. eexists. split; [reflexivity |].
    simpl. intuition discriminate.
  - intros Hrun. injection Hrun as <- <-. cbn [_clientId calls].
    split; [exact Hid |]. eexists. split; [reflexivity |].
    simpl. intuition discriminate.
Qed.

End Upload.

(** *** Runs against the model backend *)

Lemma upload_nothing_pending_witness :
  server_upload 200 (fresh {| pending := []; received := []; completed := [] |})
  = (Normal tt,
     {| _clientId := None;
        backend := {| pending := []; received := []; completed := [] |};
        calls := [GetNextCrudTransaction] |}).
Proof.
  apply (upload_nothing_pending Server string string nat
           server_next server_clientId (server_fetch 200) server_ok (fun r => r)
           server_text server_complete server_stringify).
  reflexivity.
Defined.

Lemma upload_rejected_not_completed_witness :
  exists w',
    server_upload 500 (fresh one_pending)
    = (Throw (Error "Received 500 from /api/data: refused"), w')
    /\ completed (backend w') = []
    /\ pending (backend w') = pending one_pending
    /\ received (backend w') = ["lists/a,todos/b"].
Proof.
  eexists. split.
  - refine (upload_rejected_not_completed Server string string nat
              server_next server_clientId (server_fetch 500) server_ok (fun r => r)
              server_text server_complete server_stringify
              (fresh one_pending) _ _ _ _ _ 500 "refused" _ _ _ _ _);
      reflexivity.
  - repeat split.
Defined.

Lemma upload_accepted_completes_witness :
  exists w',
    server_upload 200 (fresh one_pending) = (Normal tt, w')
    /\ completed (backend w') = [7]
    /\ pending (backend w') = []
    /\ _clientId w' = Some "client-1".
Proof.
  eexists. split.
  - refine (upload_accepted_completes Server string string nat
              server_next server_clientId (server_fetch 200) server_ok (fun r => r)
              server_text server_complete server_stringify
              (fresh one_pending) _ _ _ _ _ 200 (Normal tt) _ _ _ _ _);
      reflexivity.
  - repeat split.
Defined.

Lemma client_id_not_fetched_again_witness :
  exists w',
    server_upload 200
      {| _clientId := Some "client-0"; backend := one_pending; calls := [] |}
    = (Normal tt, w')
    /\ _clientId w' = Some "client-0".
Proof.
  eexists. split; [reflexivity |].
  refine (proj1 (client_id_not_fetched_again Server string string nat
                   server_next server_clientId (server_fetch 200) server_ok (fun r => r)
                   server_text server_complete server_stringify
                   {| _clientId := Some "client-0"; backend := one_pending;
                      calls := [] |}
                   _ "client-0" (Normal tt) _ _ _)).
  - reflexivity.
  - discriminate.
  - reflexivity.
Defined.

End ConnectorFacts.

(** ** More on the harness *)

Module HarnessExtra.

Import Harness Instances HarnessFacts.

Section Tombstone.

Variables (Database Random : Type).
Variable draw_uuid : Random -> string * Random.
Variable powersync_execute : string -> list string -> Database -> Completion unit * Database.
Variable powersync_getAll : string -> list string -> Database -> Completion (list Row) * Database.
Variable drizzle_insert : Row -> Database -> Completion unit * Database.

(** How many rows of [lists] carry a given identifier, and what the
    statements of the scenario do to that number when they succeed. *)
Variable count : Database -> string -> nat.

Hypothesis delete_all :
  forall d d', powersync_execute "DELETE FROM lists" [] d = (Normal tt, d') ->
               forall i, count d' i = 0.
Hypothesis insert_one :
  forall i n o d d', powersync_execute insert_list [i; n; o] d = (Normal tt, d') ->
                     count d' i = S (count d i).
Hypothesis delete_one :
  forall i d d', powersync_execute delete_by_id [i] d = (Normal tt, d') ->
                 count d' i = 0.
Hypothesis adapter_insert_one :
  forall r d d', drizzle_insert r d = (Normal tt, d') ->
                 count d' (id r) = S (count d (id r)).
Hypothesis select_one :
  forall i d d' rows, powersync_getAll select_by_id [i] d = (Normal rows, d') ->
                      List.length rows = count d i.

Local Abbreviation World := (Harness.World Database Random).
Local Abbreviation delete_or_insert :=
  (Harness.delete_or_insert Database Random powersync_execute drizzle_insert).
Local Abbreviation tombstone_cycles :=
  (Harness.tombstone_cycles Database Random draw_uuid powersync_execute drizzle_insert).
Local Abbreviation runDeleteAndInsertSameId :=
  (Harness.runDeleteAndInsertSameId Database Random draw_uuid
     powersync_execute powersync_getAll drizzle_insert).

(** A loop that runs to its end alternates between no row and one row. *)
Lemma cycles_alternate (testId ownerId : string) (n : nat) :
  forall (first : nat) (w w' : World),
    count (database w) testId = (if Nat.even first then 1 else 0) ->
    for_each (seq first n) (delete_or_insert testId ownerId) w = (Normal tt, w') ->
    count (database w') testId = (if Nat.even (first + n) then 1 else 0).
Proof.
  induction n as [| n IH]; intros first w w' Hstart Hrun.
  - simpl in Hrun. unfold ret in Hrun. injection Hrun as <-.
    rewrite Nat.add_0_r. exact Hstart.
  - cbn [seq for_each] in Hrun. unfold bind in Hrun.
    unfold Harness.delete_or_insert at 1 in Hrun.
    rewrite remainder_even in Hrun. unfold on_database in Hrun.
    rewrite <- Nat.add_succ_comm.
    destruct (Nat.even first) eqn:Hparity.
    + destruct (powersync_execute delete_by_id [testId] (database w))
        as [[[] | e] d1] eqn:Hstep; [| discriminate Hrun].
      apply (IH (S first) _ _) in Hrun; [exact Hrun |].
      cbn [database]. rewrite (delete_one _ _ _ Hstep).
      rewrite Nat.even_succ, <- Nat.negb_even, Hparity. reflexivity.
    + destruct (drizzle_insert _ (database w)) as [[[] | e] d1] eqn:Hstep;
        [| discriminate Hrun].
      apply (IH (S first) _ _) in Hrun; [exact Hrun |].
      cbn [database].
      pose proof (adapter_insert_one _ _ _ Hstep) as Hcount. cbn [id] in Hcount.
      rewrite Hcount, Hstart.
      rewrite Nat.even_succ, <- Nat.negb_even, Hparity. reflexivity.
Qed.

(** X19.  Whenever [runDeleteAndInsertSameId] returns a result, the final
    query for the identifier returned exactly one row: the loop ends on an
    insert (iteration 9), so the row is there; the test never observes the
    empty outcome that its check also accepts. *)
Theorem tombstone_ends_with_one_row (w w' : World) (r : TestResult) :
  runDeleteAndInsertSameId w = (Normal r, w') ->
  exists ids w1 rows,
    tombstone_cycles 10 w = (Normal ids, w1)
    /\ powersync_getAll select_by_id [fst ids] (database w1) = (Normal rows, database w')
    /\ List.length rows = 1
    /\ passed r = true.
Proof.
  unfold Harness.runDeleteAndInsertSameId, bind.
  destruct (tombstone_cycles 10 w) as [[ids | e] w1] eqn:Hcycles; [| discriminate].
  unfold on_database.
  destruct (powersync_getAll select_by_id [fst ids] (database w1))
    as [[rows | e] d2] eqn:Hselect; [| discriminate].
  unfold ret. intros Hrun. injection Hrun as <- <-.
  assert (Hone : List.length rows = 1).
  { rewrite (select_one _ _ _ _ Hselect).
    revert Hcycles.
    unfold Harness.tombstone_cycles, bind, on_database, uuid.
    destruct (powersync_execute "DELETE FROM lists" [] (database w))
      as [[[] | e] d0] eqn:Hclear; [| discriminate].
    cbn [database random].
    destruct (draw_uuid (random w)) as [testId r1]. cbn [database random].
    destruct (draw_uuid r1) as [ownerId r2]. cbn [database random].
    destruct (powersync_execute insert_list [testId; "Initial"; ownerId] d0)
      as [[[] | e] d1] eqn:Hinsert; [| discriminate].
    destruct (for_each (seq 0 10) _ _) as [[[] | e] w2] eqn:Hloop; [| discriminate].
    unfold ret. intros Hcycles. injection Hcycles as <- <-. cbn [fst].
    apply (cycles_alternate testId ownerId 10 0) in Hloop; [exact Hloop |].
    cbn [database Nat.even].
    rewrite (insert_one _ _ _ _ _ Hinsert), (delete_all _ _ Hclear). reflexivity. }
  exists ids, w1, rows. cbn [database passed].
  split; [reflexivity |]. split; [exact Hselect |]. split; [exact Hone |].
  rewrite Hone. reflexivity.
Qed.

End Tombstone.

Lemma tombstone_ends_with_one_row_witness :
  exists rows,
    table_getAll select_by_id ["uuid-0"]
      [{| id := "uuid-0"; name := Some "Reinserted 9"; owner_id := Some "uuid-1" |}]
    = (Normal rows,
       [{| id := "uuid-0"; name := Some "Reinserted 9"; owner_id := Some "uuid-1" |}])
    /\ List.length rows = 1.
Proof.
  destruct (tombstone_ends_with_one_row (list Row) nat counter_uuid
              table_execute table_getAll table_insert table_count
              table_delete_all table_insert_one table_delete_one
              table_insert_count table_select_one start
              (snd (runDeleteAndInsertSameId (list Row) nat counter_uuid
                      table_execute table_getAll table_insert start))
              {| test_name := "Delete+insert same ID (tombstone scenario) succeeds";
                 passed := true; error := None |})
    as (ids & w1 & rows & Hcycles & Hselect & Hone & _).
  - vm_compute. reflexivity.
  - vm_compute in Hcycles. injection Hcycles as <- <-.
    exists rows. split; [exact Hselect | exact Hone].
Defined.

End HarnessExtra.


(** ** Further scenarios and the runner *)

Module SuiteFacts.

Import Harness Suite.

(** *** Counting rows by the start of their name *)

Lemma prefix_head (a : ascii) (p n : string) :
  String.prefix (String a p) n = true -> exists rest, n = String a rest.
Proof.
  destruct n as [| b rest]; simpl; [discriminate |].
  destruct (ascii_dec a b) as [-> | _]; [| discriminate].
  intros _. exists rest. reflexivity.
Qed.

Lemma named_apart (a b : ascii) (p q : string) (r : Row) :
  a <> b -> named (String a p) r = true -> named (String b q) r = true -> False.
Proof.
  unfold named. intros Hab Hp Hq.
  destruct (name r) as [n |]; [| discriminate Hp].
  apply prefix_head in Hp. apply prefix_head in Hq.
  destruct Hp as (rest1 & ->). destruct Hq as (rest2 & Heq).
  injection Heq as Hhead _. exact (Hab Hhead).
Qed.

Lemma two_counts (p q : Row -> bool) (l : list Row) :
  (forall x, p x = true -> q x = true -> False) ->
  List.length (filter p l) + List.length (filter q l) <= List.length l
  /\ (List.length (filter p l) + List.length (filter q l) = List.length l ->
      forall x, In x l -> p x = true \/ q x = true).
Proof.
  intros Hapart.
  induction l as [| r rest [IHle IHall]]; simpl.
  - split; [apply le_n | intros _ x []].
  - destruct (p r) eqn:Hp, (q r) eqn:Hq; simpl.
    + exfalso. exact (Hapart r Hp Hq).
    + split; [lia |]. intros Hsum x [<- | Hx]; [left; exact Hp | apply IHall; [lia | exact Hx]].
    + split; [lia |]. intros Hsum x [<- | Hx]; [right; exact Hq | apply IHall; [lia | exact Hx]].
    + split; [lia |]. intros Hsum. exfalso. lia.
Qed.

Lemma none_counted (p : Row -> bool) (l : list Row) :
  (forall x, In x l -> p x = false) -> List.length (filter p l) = 0.
Proof.
  induction l as [| r rest IH]; intros Hnone; simpl.
  - reflexivity.
  - rewrite (Hnone r (or_introl eq_refl)). apply IH.
    intros x Hx. apply Hnone. right. exact Hx.
Qed.

(** The verdict of [runConcurrentUpdates] on any list of rows. *)
Lemma updates_passed_true (rows : list Row) :
  (updates_passed rows = true
   <-> List.length rows = 50
       /\ count_named "PowerSync Updated" rows = 25
       /\ count_named "Drizzle Updated" rows = 25)
  /\ (updates_passed rows = true ->
      forall r, In r rows ->
                named "PowerSync Updated" r = true \/ named "Drizzle Updated" r = true).
Proof.
  assert (Hsplit : List.length rows = 50
                   /\ count_named "PowerSync Updated" rows = 25
                   /\ count_named "Drizzle Updated" rows = 25 ->
                   forall r, In r rows ->
                             named "PowerSync Updated" r = true
                             \/ named "Drizzle Updated" r = true).
  { intros (Hlen & Hps & Hdr).
    apply (two_counts (named "PowerSync Updated") (named "Drizzle Updated") rows).
    - intros x. eapply (named_apart "P" "D"). discriminate.
    - unfold count_named in Hps, Hdr. rewrite Hps, Hdr, Hlen. reflexivity. }
  assert (Hiff : updates_passed rows = true
                 <-> List.length rows = 50
                     /\ count_named "PowerSync Updated" rows = 25
                     /\ count_named "Drizzle Updated" rows = 25).
  { unfold updates_passed. rewrite !andb_true_iff, !Nat.eqb_eq.
    change MIXED_OP_COUNT with 50. change (50 / 2) with 25.
    split; [tauto |]. intros Hthree.
    destruct Hthree as (Hlen & Hps & Hdr). repeat split; try assumption.
    apply none_counted. intros x Hx.
    destruct (named "Original Name" x) eqn:Ho; [| reflexivity].
    exfalso.
    destruct (Hsplit (conj Hlen (conj Hps Hdr)) x Hx) as [Hp | Hd].
    + eapply (named_apart "P" "O"); [discriminate | exact Hp | exact Ho].
    + eapply (named_apart "D" "O"); [discriminate | exact Hd | exact Ho]. }
  split; [exact Hiff |]. intros Hpassed. apply Hsplit, Hiff, Hpassed.
Qed.

Section Scenarios.

Variables (Database Random : Type).
Variable draw_uuid : Random -> string * Random.
Variable powersync_execute : string -> list string -> Database -> Completion unit * Database.
Variable powersync_getAll : string -> list string -> Database -> Completion (list Row) * Database.
Variable settle : list Operation -> Database -> Completion unit * Database.
Variable settle_tasks : list (list Operation) -> Database -> Completion unit * Database.

Local Abbreviation World := (Harness.World Database Random).
Local Abbreviation runConcurrentUpdates :=
  (Suite.runConcurrentUpdates Database Random draw_uuid
     powersync_execute powersync_getAll settle).
Local Abbreviation mixed_tasks := (Suite.mixed_tasks Database Random draw_uuid).
Local Abbreviation runTransactionsMixedAPIs :=
  (Suite.runTransactionsMixedAPIs Database Random draw_uuid
     powersync_execute powersync_getAll settle_tasks).

Ltac next_step :=
  match goal with
  | |- context [let (_, _) := ?x in _] =>
      destruct x as [[? | ?] ?] eqn:?; try discriminate
  end.

(** X20.  Whenever [runConcurrentUpdates] returns a result, it passed
    exactly when the final [SELECT] returned fifty rows of which
    twenty-five have a name starting with [PowerSync Updated] and
    twenty-five a name starting with [Drizzle Updated].  The fourth
    check, that no name starts with [Original Name], adds nothing: in a
    passing run every row carries a name with one of the two other
    starts. *)
Theorem concurrent_updates_verdict (w w' : World) (r : TestResult) :
  runConcurrentUpdates w = (Normal r, w') ->
  exists d rows,
    powersync_getAll "SELECT * FROM lists" [] d = (Normal rows, database w')
    /\ (passed r = true
        <-> List.length rows = 50
            /\ count_named "PowerSync Updated" rows = 25
            /\ count_named "Drizzle Updated" rows = 25)
    /\ (passed r = true ->
        forall row, In row rows ->
          exists n,
            name row = Some n
            /\ (String.prefix "PowerSync Updated" n = true
                \/ String.prefix "Drizzle Updated" n = true))
    /\ (error r = None <-> passed r = true).
Proof.
  unfold Suite.runConcurrentUpdates, bind.
  do 5 next_step.
  match goal with
  | |- context [on_database _ _ ?f ?w0] =>
      unfold on_database at 1;
      destruct (f (database w0)) as [[rows | e] d'] eqn:Hselect; [| discriminate]
  end.
  unfold ret. intros Hrun. injection Hrun as <- <-.
  eexists. exists rows. split; [exact Hselect |]. cbn [passed error database].
  destruct (updates_passed_true rows) as [Hiff Hall].
  split; [exact Hiff | split].
  - intros Hpassed row Hrow. specialize (Hall Hpassed row Hrow).
    unfold named in Hall. destruct (name row) as [n |].
    + exists n. split; [reflexivity | exact Hall].
    + destruct Hall; discriminate.
  - destruct (updates_passed rows); split; intros H; try reflexivity; discriminate H.
Qed.

(** X21.  [runTransactionsMixedAPIs] does not let a failure of its
    concurrent work escape: when [Promise.all] rejects with [err], the
    function returns a result with [passed = false] and the error text
    [Transaction failed: ] followed by the text of [err], and the final
    [SELECT] is not issued. *)
Theorem mixed_api_failure_reported (w w1 : World) (d0 d2 : Database)
    (txnId1 txnId2 txnId3 : string) (tasks : list (list Operation)) (err : Thrown) :
  powersync_execute "DELETE FROM lists" [] (database w) = (Normal tt, d0) ->
  mixed_tasks {| database := d0; random := random w |}
  = (Normal (txnId1, txnId2, txnId3, tasks), w1) ->
  settle_tasks tasks (database w1) = (Throw err, d2) ->
  runTransactionsMixedAPIs w
  = (Normal {| test_name := "Mixed API transactions succeed";
               passed := false;
               error := Some ("Transaction failed: " ++ message_or_string err)%string |},
     {| database := d2; random := random w1 |}).
Proof.
  intros Hdelete Htasks Hsettle.
  unfold Suite.runTransactionsMixedAPIs, bind, try_catch.
  unfold on_database at 1. rewrite Hdelete, Htasks.
  unfold on_database at 1. rewrite Hsettle. reflexivity.
Qed.

End Scenarios.

Lemma concurrent_updates_verdict_witness :
  exists rows : list Row,
    List.length rows = 50
    /\ count_named "PowerSync Updated" rows = 25
    /\ count_named "Drizzle Updated" rows = 25.
Proof.
  destruct (concurrent_updates_verdict (list Row) nat Instances.counter_uuid
              updatable_execute updatable_getAll table_settle Instances.start
              (snd (Suite.runConcurrentUpdates (list Row) nat Instances.counter_uuid
                      updatable_execute updatable_getAll table_settle Instances.start))
              {| test_name := "Concurrent updates (PowerSync + Drizzle) succeed";
                 passed := true; error := None |})
    as (d & rows & _ & Hiff & _).
  - vm_compute. reflexivity.
  - exists rows. exact (proj1 Hiff eq_refl).
Defined.

Lemma mixed_api_failure_reported_witness :
  exists w',
    Suite.runTransactionsMixedAPIs (list Row) nat Instances.counter_uuid
      updatable_execute updatable_getAll tasks_busy Instances.start
    = (Normal {| test_name := "Mixed API transactions succeed";
                 passed := false;
                 error := Some "Transaction failed: database is locked" |},
       w').
Proof.
  eexists.
  refine (mixed_api_failure_reported (list Row) nat Instances.counter_uuid
            updatable_execute updatable_getAll tasks_busy Instances.start
            _ _ _ _ _ _ _ Instances.busy _ _ _);
    cbv; reflexivity.
Defined.

Section Runner.

Variable Device : Type.
Variable new_PowerSyncDatabase : Device -> Completion unit * Device.
Variable powersync_init : Device -> Completion unit * Device.
Variable open_connection : Device -> Completion unit * Device.
Variable has_write_connection : Device -> bool.
Variable scenarios : list (Device -> Completion TestResult * Device).
Variable onResult : TestResult -> Device -> Completion unit * Device.
Variable powersync_close : Device -> Completion unit * Device.
Variable separate_close : Device -> Completion unit * Device.

Local Abbreviation Locals := (Suite.Locals Device).
Local Abbreviation on_device := (Suite.on_device Device).
Local Abbreviation set_up :=
  (Suite.set_up Device new_PowerSyncDatabase powersync_init open_connection
     has_write_connection).
Local Abbreviation run_scenario := (Suite.run_scenario Device onResult).
Local Abbreviation ran := (Suite.ran Device onResult).
Local Abbreviation addResult := (Suite.addResult Device onResult).
Local Abbreviation close_all := (Suite.close_all Device powersync_close separate_close).
Local Abbreviation fresh_locals := (Suite.fresh_locals Device).
Local Abbreviation runSimultaneousWritesTest :=
  (Suite.runSimultaneousWritesTest Device new_PowerSyncDatabase powersync_init
     open_connection has_write_connection scenarios onResult
     powersync_close separate_close).

Lemma for_each_app {W A} (l1 l2 : list A) (body : A -> M W unit) (w : W) :
  for_each (l1 ++ l2) body w = (for_each l1 body ;;; for_each l2 body) w.
Proof.
  revert w. induction l1 as [| x rest IH]; intros w; simpl.
  - unfold bind, ret. reflexivity.
  - unfold bind. destruct (body x w) as [[[] | e] w1]; [| reflexivity].
    rewrite IH. reflexivity.
Qed.

(** A call on the device leaves the local variables alone. *)
Lemma on_device_locals {T} (op : Device -> Completion T * Device) (l l' : Locals)
    (c : Completion T) :
  on_device op l = (c, l') ->
  results l' = results l
  /\ powersync l' = powersync l
  /\ separateWriteConnection l' = separateWriteConnection l.
Proof.
  unfold Suite.on_device. destruct (op (device l)) as [c0 d].
  intros Hrun. injection Hrun as _ <-. repeat split.
Qed.

(** Setting up adds no result; when it succeeds both connections have
    been assigned. *)
Lemma set_up_locals (l l' : Locals) (c : Completion unit) :
  set_up l = (c, l') ->
  results l' = results l
  /\ (c = Normal tt -> powersync l' = true /\ separateWriteConnection l' = true).
Proof.
  unfold Suite.set_up, bind, Suite.assign_powersync,
    Suite.assign_separateWriteConnection, Suite.getPowerSyncWriteDB.
  destruct (on_device new_PowerSyncDatabase l) as [[[] | e] l1] eqn:H1.
  2:{ intros Hrun. injection Hrun as <- <-.
      destruct (on_device_locals _ _ _ _ H1) as (Hr & _).
      split; [exact Hr | discriminate]. }
  destruct (on_device_locals _ _ _ _ H1) as (Hr1 & _).
  match goal with
  | |- context [on_device powersync_init ?x] =>
      destruct (on_device powersync_init x) as [[[] | e] l2] eqn:H2
  end.
  2:{ intros Hrun. injection Hrun as <- <-.
      destruct (on_device_locals _ _ _ _ H2) as (Hr & _). cbn in Hr.
      split; [congruence | discriminate]. }
  destruct (on_device_locals _ _ _ _ H2) as (Hr2 & Hp2 & _). cbn in Hr2, Hp2.
  destruct (on_device open_connection l2) as [[[] | e] l3] eqn:H3.
  2:{ intros Hrun. injection Hrun as <- <-.
      destruct (on_device_locals _ _ _ _ H3) as (Hr & _).
      split; [congruence | discriminate]. }
  destruct (on_device_locals _ _ _ _ H3) as (Hr3 & Hp3 & _).
  cbn [device results powersync separateWriteConnection].
  destruct (has_write_connection (device l3)); intros Hrun;
    injection Hrun as <- <-; cbn [results powersync separateWriteConnection].
  - split; [congruence |]. intros _. split; [congruence | reflexivity].
  - split; [congruence | discriminate].
Qed.

(** [addResult] pushes its result, whatever [onResult] does. *)
Lemma addResult_locals (r : TestResult) (l l' : Locals) (c : Completion unit) :
  addResult r l = (c, l') ->
  results l' = results l ++ [r]
  /\ powersync l' = powersync l
  /\ separateWriteConnection l' = separateWriteConnection l.
Proof.
  unfold Suite.addResult. intros Hrun.
  apply on_device_locals in Hrun. exact Hrun.
Qed.

(** The scenarios that ran to their end each left one result; the
    connections stay assigned. *)
Lemma scenarios_locals (ss : list (Device -> Completion TestResult * Device)) :
  forall (l l' : Locals) (c : Completion unit),
    for_each ss run_scenario l = (c, l') ->
    powersync l' = powersync l
    /\ separateWriteConnection l' = separateWriteConnection l
    /\ exists rs,
         results l' = results l ++ rs
         /\ List.length rs <= List.length ss
         /\ (c = Normal tt -> List.length rs = List.length ss)
         /\ ((forall r d, exists d', onResult r d = (Normal tt, d')) ->
             forall e, c = Throw e -> List.length rs < List.length ss).
Proof.
  induction ss as [| s rest IH]; intros l l' c Hrun.
  - simpl in Hrun. unfold ret in Hrun. injection Hrun as <- <-.
    repeat split. exists []. rewrite app_nil_r.
    repeat split; try reflexivity. intros _ e He. discriminate He.
  - cbn [for_each] in Hrun. unfold bind at 1 in Hrun.
    unfold Suite.run_scenario at 1 in Hrun. unfold bind at 1 in Hrun.
    destruct (on_device s l) as [[r | e] l1] eqn:Hs.
    + destruct (on_device_locals _ _ _ _ Hs) as (Hr1 & Hp1 & Hq1).
      destruct (addResult r l1) as [[[] | e] l2] eqn:Hadd.
      * destruct (addResult_locals _ _ _ _ Hadd) as (Hr2 & Hp2 & Hq2).
        destruct (IH _ _ _ Hrun) as (Hp & Hq & rs & Hrs & Hle & Hall & Hthrow).
        split; [congruence | split; [congruence |]].
        exists (r :: rs). rewrite Hrs, Hr2, Hr1, <- app_assoc. simpl.
        split; [reflexivity | split; [lia | split]].
        -- intros Hc. rewrite (Hall Hc). reflexivity.
        -- intros Hnever e He. specialize (Hthrow Hnever e He). lia.
      * injection Hrun as <- <-.
        destruct (addResult_locals _ _ _ _ Hadd) as (Hr2 & Hp2 & Hq2).
        split; [congruence | split; [congruence |]].
        exists [r]. rewrite Hr2, Hr1. simpl.
        split; [reflexivity | split; [lia | split]].
        -- discriminate.
        -- intros Hnever e0 _. exfalso.
           unfold Suite.addResult, Suite.on_device in Hadd. cbn [device] in Hadd.
           destruct (Hnever r (device l1)) as (d' & Hd). rewrite Hd in Hadd.
           discriminate Hadd.
    + injection Hrun as <- <-.
      destruct (on_device_locals _ _ _ _ Hs) as (Hr1 & Hp1 & Hq1).
      split; [exact Hp1 | split; [exact Hq1 |]].
      exists []. rewrite app_nil_r. simpl.
      split; [exact Hr1 | split; [lia | split]].
      * discriminate.
      * intros _ e0 _. lia.
Qed.

(** X22.  A scenario that throws ends the run: the scenarios before it
    have each left their result, the error becomes one more entry, named
    [Simultaneous writes test harness], with [passed = false] and the
    text of the error, the scenarios after it are not started, both
    connections are closed, and the list is returned. *)
Theorem failing_scenario_ends_run (d d2 d3 d4 d5 : Device) (l0 l1 : Locals)
    (before after : list (Device -> Completion TestResult * Device))
    (failing : Device -> Completion TestResult * Device) (err : Thrown) :
  scenarios = before ++ failing :: after ->
  set_up (fresh_locals d) = (Normal tt, l0) ->
  for_each before run_scenario l0 = (Normal tt, l1) ->
  failing (device l1) = (Throw err, d2) ->
  onResult (harness_error err) d2 = (Normal tt, d3) ->
  powersync_close d3 = (Normal tt, d4) ->
  separate_close d4 = (Normal tt, d5) ->
  runSimultaneousWritesTest d = (Normal (results l1 ++ [harness_error err]), d5)
  /\ List.length (results l1) = List.length before.
Proof.
  intros Hsplit Hsetup Hbefore Hfail Hreport Hclose1 Hclose2.
  destruct (set_up_locals _ _ _ Hsetup) as (Hr0 & Hflags0).
  destruct (Hflags0 eq_refl) as [Hp0 Hq0].
  destruct (scenarios_locals before _ _ _ Hbefore)
    as (Hp1 & Hq1 & rs & Hrs & _ & Hall & _).
  rewrite Hp0 in Hp1. rewrite Hq0 in Hq1.
  split.
  - unfold Suite.runSimultaneousWritesTest, bind at 1, try_finally, try_catch.
    unfold bind at 1. rewrite Hsetup, Hsplit, for_each_app.
    unfold bind at 1. rewrite Hbefore. cbn [for_each].
    unfold bind at 1. unfold Suite.run_scenario at 1. unfold bind at 1.
    unfold Suite.on_device at 1. rewrite Hfail.
    unfold Suite.addResult, Suite.on_device at 1.
    cbn [device results powersync separateWriteConnection]. rewrite Hreport.
    unfold Suite.close_all, bind, Suite.on_device.
    cbn [device results powersync separateWriteConnection].
    rewrite Hp1, Hclose1. cbn [device results powersync separateWriteConnection].
    rewrite Hq1, Hclose2. reflexivity.
  - rewrite Hrs, Hr0. cbn. apply Hall. reflexivity.
Qed.

Lemma addResult_resolves (r : TestResult) (l : Locals) :
  (forall r0 d, exists d', onResult r0 d = (Normal tt, d')) ->
  exists l', addResult r l = (Normal tt, l') /\ results l' = results l ++ [r].
Proof.
  intros Hnever. unfold Suite.addResult, Suite.on_device. cbn [device].
  destruct (Hnever r (device l)) as (d' & ->). eexists. split; reflexivity.
Qed.

Lemma close_all_resolves (l : Locals) :
  (forall d, exists d', powersync_close d = (Normal tt, d')) ->
  (forall d, exists d', separate_close d = (Normal tt, d')) ->
  exists l', close_all l = (Normal tt, l') /\ results l' = results l.
Proof.
  intros Hclose1 Hclose2. unfold Suite.close_all, bind, Suite.on_device.
  destruct (powersync l).
  - destruct (Hclose1 (device l)) as (d1 & ->).
    cbn [device results powersync separateWriteConnection].
    destruct (separateWriteConnection l).
    + destruct (Hclose2 d1) as (d2 & ->). eexists. split; reflexivity.
    + eexists. split; reflexivity.
  - destruct (separateWriteConnection l).
    + destruct (Hclose2 (device l)) as (d2 & ->). eexists. split; reflexivity.
    + eexists. split; reflexivity.
Qed.

(** What a run of scenarios leaves, when [onResult] does not throw: all of
    them ran to their end, or those before the first that threw did. *)
Lemma scenarios_ran (ss : list (Device -> Completion TestResult * Device)) :
  (forall r d, exists d', onResult r d = (Normal tt, d')) ->
  forall (l l' : Locals) (c : Completion unit),
    for_each ss run_scenario l = (c, l') ->
    match c with
    | Normal _ =>
        exists rs, ran ss (device l) rs (device l') /\ results l' = results l ++ rs
    | Throw err =>
        exists before failing after rs0 d1,
          ss = before ++ failing :: after
          /\ ran before (device l) rs0 d1
          /\ failing d1 = (Throw err, device l')
          /\ results l' = results l ++ rs0
    end.
Proof.
  intros Hnever. induction ss as [| s rest IH]; intros l l' c Hrun.
  - simpl in Hrun. unfold ret in Hrun. injection Hrun as <- <-.
    exists []. split; [constructor | rewrite app_nil_r; reflexivity].
  - cbn [for_each] in Hrun. unfold bind at 1 in Hrun.
    unfold Suite.run_scenario at 1 in Hrun. unfold bind at 1 in Hrun.
    unfold Suite.on_device at 1 in Hrun.
    destruct (s (device l)) as [[r | e] d1] eqn:Hs.
    + unfold Suite.addResult in Hrun at 1. unfold Suite.on_device in Hrun at 1.
      cbn [device results powersync separateWriteConnection] in Hrun.
      destruct (Hnever r d1) as (d2 & Hreport). rewrite Hreport in Hrun.
      specialize (IH _ _ _ Hrun).
      cbn [device results powersync separateWriteConnection] in IH.
      destruct c as [[] | err].
      * destruct IH as (rs & Hran & Hrs). exists (r :: rs). split.
        -- exact (Suite.ran_next Device onResult s rest (device l) d1 d2 (device l')
                    r rs Hs Hreport Hran).
        -- rewrite Hrs, <- app_assoc. reflexivity.
      * destruct IH as (before & failing & after & rs0 & d3 & Hsplit & Hran & Hfail & Hrs).
        exists (s :: before), failing, after, (r :: rs0), d3.
        split; [rewrite Hsplit; reflexivity |].
        split; [exact (Suite.ran_next Device onResult s before (device l) d1 d2 d3
                         r rs0 Hs Hreport Hran) |].
        split; [exact Hfail |]. rewrite Hrs, <- app_assoc. reflexivity.
    + injection Hrun as <- <-.
      cbn [device results powersync separateWriteConnection].
      exists [], s, rest, [], (device l).
      split; [reflexivity |]. split; [constructor |].
      split; [exact Hs | rewrite app_nil_r; reflexivity].
Qed.

(** X23.  The runner turns every failure into a result: provided
    [onResult] and the two [close] calls do not throw,
    [runSimultaneousWritesTest] always returns a list, never throws, and
    the list is one of three.  When the set-up throws, it is the single
    [Simultaneous writes test harness] entry for that error.  When every
    scenario ran to its end, it is the results that the scenarios
    returned, in their order, each scenario started on the device that the
    one before it left.  Otherwise it is the results of the scenarios
    before the first one that threw, followed by the
    [Simultaneous writes test harness] entry for its error; the scenarios
    after it are not started.  In each case the connections assigned by
    then are closed last. *)
Theorem runner_always_resolves (d : Device) :
  (forall r d0, exists d', onResult r d0 = (Normal tt, d')) ->
  (forall d0, exists d', powersync_close d0 = (Normal tt, d')) ->
  (forall d0, exists d', separate_close d0 = (Normal tt, d')) ->
  exists rs d',
    runSimultaneousWritesTest d = (Normal rs, d')
    /\ ((exists err l0 l1 l2,
           set_up (fresh_locals d) = (Throw err, l0)
           /\ rs = [harness_error err]
           /\ addResult (harness_error err) l0 = (Normal tt, l1)
           /\ close_all l1 = (Normal tt, l2)
           /\ d' = device l2)
        \/ (exists l0 d1 d2,
              set_up (fresh_locals d) = (Normal tt, l0)
              /\ ran scenarios (device l0) rs d1
              /\ powersync_close d1 = (Normal tt, d2)
              /\ separate_close d2 = (Normal tt, d'))
        \/ (exists l0 before failing after rs0 d1 err d2 d3 d4,
              set_up (fresh_locals d) = (Normal tt, l0)
              /\ scenarios = before ++ failing :: after
              /\ ran before (device l0) rs0 d1
              /\ failing d1 = (Throw err, d2)
              /\ rs = rs0 ++ [harness_error err]
              /\ onResult (harness_error err) d2 = (Normal tt, d3)
              /\ powersync_close d3 = (Normal tt, d4)
              /\ separate_close d4 = (Normal tt, d'))).
Proof.
  intros Hreport Hclose1 Hclose2.
  unfold Suite.runSimultaneousWritesTest, bind at 1, try_finally, try_catch.
  unfold bind at 1.
  destruct (set_up (fresh_locals d)) as [[[] | e] l0] eqn:Hsetup.
  - destruct (set_up_locals _ _ _ Hsetup) as (Hr0 & Hflags0). cbn in Hr0.
    destruct (Hflags0 eq_refl) as [Hp0 Hq0].
    destruct (for_each scenarios run_scenario l0) as [[[] | e] l1] eqn:Hrun.
    + destruct (scenarios_locals scenarios _ _ _ Hrun) as (Hp1 & Hq1 & _).
      rewrite Hp0 in Hp1. rewrite Hq0 in Hq1.
      destruct (scenarios_ran scenarios Hreport _ _ _ Hrun) as (rs & Hran & Hrs).
      rewrite Hr0 in Hrs. cbn in Hrs.
      unfold Suite.close_all, bind, Suite.on_device. rewrite Hp1.
      destruct (Hclose1 (device l1)) as (d2 & Hc1). rewrite Hc1.
      cbn [device results powersync separateWriteConnection]. rewrite Hq1.
      destruct (Hclose2 d2) as (d3 & Hc2). rewrite Hc2.
      cbn [device results powersync separateWriteConnection].
      eexists. eexists. split; [reflexivity |]. right. left.
      exists l0, (device l1), d2. rewrite Hrs.
      repeat split; assumption.
    + destruct (scenarios_locals scenarios _ _ _ Hrun) as (Hp1 & Hq1 & _).
      rewrite Hp0 in Hp1. rewrite Hq0 in Hq1.
      destruct (scenarios_ran scenarios Hreport _ _ _ Hrun)
        as (before & failing & after & rs0 & d1 & Hsplit & Hran & Hfail & Hrs).
      rewrite Hr0 in Hrs. cbn in Hrs.
      unfold Suite.addResult, Suite.on_device.
      cbn [device results powersync separateWriteConnection].
      destruct (Hreport (harness_error e) (device l1)) as (d3 & Hr3). rewrite Hr3.
      unfold Suite.close_all, bind, Suite.on_device.
      cbn [device results powersync separateWriteConnection]. rewrite Hp1.
      destruct (Hclose1 d3) as (d4 & Hc1). rewrite Hc1.
      cbn [device results powersync separateWriteConnection]. rewrite Hq1.
      destruct (Hclose2 d4) as (d5 & Hc2). rewrite Hc2.
      cbn [device results powersync separateWriteConnection].
      eexists. eexists. split; [reflexivity |]. right. right.
      exists l0, before, failing, after, rs0, d1, e, (device l1), d3, d4.
      rewrite Hrs. repeat split; assumption.
  - destruct (set_up_locals _ _ _ Hsetup) as (Hr0 & _). cbn in Hr0.
    destruct (addResult_resolves (harness_error e) l0 Hreport) as (l1 & Hadd & Hr1).
    rewrite Hadd.
    destruct (close_all_resolves l1 Hclose1 Hclose2) as (l2 & Hclose & Hr2).
    rewrite Hclose.
    eexists. eexists. split; [reflexivity |]. left.
    exists e, l0, l1, l2. rewrite Hr2, Hr1, Hr0.
    repeat split; assumption.
Qed.

(** X24.  When the sync engine exposes no write connection,
    [getPowerSyncWriteDB] throws before any scenario is started: the run
    returns the single entry [Simultaneous writes test harness] with the
    text [PowerSync write connection not available], and the two
    connections, both open by then, are closed. *)
Theorem missing_write_connection_reported (d d1 d2 d3 d4 d5 d6 : Device) :
  new_PowerSyncDatabase d = (Normal tt, d1) ->
  powersync_init d1 = (Normal tt, d2) ->
  open_connection d2 = (Normal tt, d3) ->
  has_write_connection d3 = false ->
  onResult (harness_error (Error "PowerSync write connection not available")) d3
  = (Normal tt, d4) ->
  powersync_close d4 = (Normal tt, d5) ->
  separate_close d5 = (Normal tt, d6) ->
  runSimultaneousWritesTest d
  = (Normal [ {| test_name := "Simultaneous writes test harness";
                 passed := false;
                 error := Some "PowerSync write connection not available" |} ],
     d6).
Proof.
  intros Hnew Hinit Hopen Hmissing Hreport Hclose1 Hclose2.
  unfold Suite.runSimultaneousWritesTest, bind at 1, try_finally, try_catch.
  unfold bind at 1.
  unfold Suite.close_all, Suite.addResult, Suite.set_up, bind, Suite.on_device,
    Suite.assign_powersync, Suite.assign_separateWriteConnection,
    Suite.getPowerSyncWriteDB.
  cbn [Suite.fresh_locals device results powersync separateWriteConnection].
  rewrite Hnew. cbn [device results powersync separateWriteConnection].
  rewrite Hinit. cbn [device results powersync separateWriteConnection].
  rewrite Hopen. cbn [device results powersync separateWriteConnection].
  rewrite Hmissing. cbn [device results powersync separateWriteConnection].
  unfold Suite.on_device. cbn [device results powersync separateWriteConnection].
  unfold harness_error in Hreport. cbn [message_or_string Error] in Hreport.
  unfold harness_error. cbn [message_or_string Error].
  rewrite Hreport. cbn [device results powersync separateWriteConnection].
  rewrite Hclose1. cbn [device results powersync separateWriteConnection].
  rewrite Hclose2. reflexivity.
Qed.

End Runner.

Lemma missing_write_connection_reported_witness :
  run_without_connection []
  = (Normal [ {| test_name := "Simultaneous writes test harness";
                 passed := false;
                 error := Some "PowerSync write connection not available" |} ],
     ["new"; "init"; "open"; "close powersync"; "close separate"]).
Proof.
  refine (missing_write_connection_reported (list string)
            (logs "new") (logs "init") (logs "open") (fun _ => false)
            three_scenarios (fun _ d => (Normal tt, d))
            (logs "close powersync") (logs "close separate")
            [] _ _ _ _ _ _ _ _ _ _ _ _ _);
    reflexivity.
Defined.

Lemma failing_scenario_ends_run_witness :
  run_three []
  = (Normal [ {| test_name := "first"; passed := true; error := None |};
              {| test_name := "Simultaneous writes test harness"; passed := false;
                 error := Some "second crashed" |} ],
     ["new"; "init"; "open"; "first"; "second"; "close powersync"; "close separate"]).
Proof.
  refine (proj1 (failing_scenario_ends_run (list string)
                   (logs "new") (logs "init") (logs "open") (fun _ => true)
                   three_scenarios (fun _ d => (Normal tt, d))
                   (logs "close powersync") (logs "close separate")
                   [] _ _ _ _
                   {| device := ["new"; "init"; "open"]; results := [];
                      powersync := true; separateWriteConnection := true |}
                   {| device := ["new"; "init"; "open"; "first"];
                      results := [ {| test_name := "first"; passed := true;
                                      error := None |} ];
                      powersync := true; separateWriteConnection := true |}
                   [passes "first"] [passes "third"] (crashes "second")
                   (Error "second crashed") _ _ _ _ _ _ _));
    reflexivity.
Defined.

Lemma runner_always_resolves_witness :
  exists rs d', run_three [] = (Normal rs, d').
Proof.
  destruct (runner_always_resolves (list string)
              (logs "new") (logs "init") (logs "open") (fun _ => true)
              three_scenarios (fun _ d => (Normal tt, d))
              (logs "close powersync") (logs "close separate") [])
    as (rs & d' & Hrun & _).
  - intros r d0. exists d0. reflexivity.
  - intros d0. eexists. reflexivity.
  - intros d0. eexists. reflexivity.
  - exists rs, d'. exact Hrun.
Defined.

End SuiteFacts.
